(** * Mnemonist DynamicArray

    A shallow embedding of [dynamic-array.js]: a growing array on top of a
    JavaScript typed array, with a logical [length], a tracked [capacity]
    and a pluggable growing [policy].

    Numbers are modelled by [Z] (the integer-valued doubles the code works
    with), the backing typed array by a [list] of slots, and a call by an
    [outcome]: it returns, it throws (the object keeps whatever was assigned
    before the [throw]), or the model runs out of fuel in the [while] loop
    of [set]. *)

From Stdlib Require Import ZArith QArith Qround Lia.
From Stdlib Require Strings.String.
From stdpp Require Import base list.

Local Open Scope Z_scope.

(** ** The array constructor handed to [DynamicArray]

    [ArrayClass] is the first argument of the constructor.  The exported
    subclasses all pass a typed array, whose behaviour is fixed by three
    values: what a slot of a freshly allocated array holds, what is stored
    when [undefined] is assigned to a slot, and the largest size the
    constructor allocates.  Above that size [new ArrayClass(n)] throws a
    [RangeError]: the language refuses a size above [2^53 - 1], and the
    engine one it has no memory for; an array of one slot can be had. *)
Class ArrayClass (V : Type) := {
  fresh_slot : V;
  of_undefined : V;
  max_length : Z;
  max_length_pos : 0 < max_length;
}.

(** [Int32Array], with the elements taken in the range of the array, and
    the sizes the language lets through (an engine short of memory refuses
    smaller ones; the runs on this instance allocate 8 slots at most, or
    ask for [2^53]). *)
Definition Int32Array : ArrayClass Z :=
  {| fresh_slot := 0; of_undefined := 0;
     max_length := 9007199254740991; max_length_pos := eq_refl |}.

Section TypedArray.
Context {V : Type} `{AC : ArrayClass V}.

(** [new ArrayClass(n)]: a [RangeError] for a negative size and for a size
    above [max_length]. *)
Definition new_array (n : Z) : option (list V) :=
  if (n <? 0) || (max_length <? n) then None
  else Some (replicate (Z.to_nat n) fresh_slot).

(** [a[i]] read: [undefined] (here [None]) outside of the array. *)
Definition load (a : list V) (i : Z) : option V :=
  if i <? 0 then None else a !! Z.to_nat i.

(** [a[i] = x]: a typed array ignores a write outside of its bounds. *)
Definition store (a : list V) (i : Z) (x : V) : list V :=
  if i <? 0 then a else <[Z.to_nat i := x]> a.

(** The value kept by the array for a JavaScript value that may be
    [undefined]. *)
Definition of_js (x : option V) : V := default of_undefined x.

(** [for (i = from, ...; i < l; i++) newArray[i] = oldArray[i];] with
    [n] iterations left. *)
Fixpoint transfer_from (oldArray newArray : list V) (i : Z) (n : nat)
  : list V :=
  match n with
  | O => newArray
  | S n' =>
      transfer_from oldArray
        (store newArray i (of_js (load oldArray i))) (i + 1) n'
  end.

(** [for (var i = 0, l = this.length; i < l; i++)
      this.array[i] = oldArray[i];] *)
Definition transfer (oldArray newArray : list V) (l : Z) : list V :=
  transfer_from oldArray newArray 0 (Z.to_nat l).
(** The bound of a [slice] argument in an array of [len] slots: a negative
    one counts from the end, and both ways it is clamped to the array. *)
Definition relative_index (len i : Z) : Z :=
  if i <? 0 then Z.max (len + i) 0 else Z.min i len.

(** [a.slice(start, end)] of a typed array: a new array. *)
Definition slice (a : list V) (start end_ : Z) : list V :=
  let len := Z.of_nat (List.length a) in
  let k := relative_index len start in
  let final := relative_index len end_ in
  take (Z.to_nat (final - k)) (drop (Z.to_nat k) a).
End TypedArray.

(** ** Constants *)

(** [Math.ceil(currentSize * 1.5)] *)
Definition DEFAULT_GROWING_POLICY (currentSize : Z) : Z :=
  Qceiling (inject_Z currentSize * 1.5).

Module DynamicArray.

(** The errors a call can throw: the two sanity checks on the policy and
    the [RangeError] of the array constructor. *)
Inductive error : Type :=
| PolicyViolation_set    (* 'mnemonist/dynamic-array.set: policy returned
                            a less or equal length to allocate.' *)
| PolicyViolation_grow   (* 'mnemonist/dynamic-array.grow: policy returned
                            a less or equal length to allocate.' *)
| RangeError.

Section WithArrayClass.
Context {V : Type} `{AC : ArrayClass V}.

Record t : Type := Build {
  length : Z;
  capacity : Z;
  policy : Z -> Z;
  array : list V;
}.

Definition with_length (this : t) (l : Z) : t :=
  Build l (capacity this) (policy this) (array this).
Definition with_capacity (this : t) (c : Z) : t :=
  Build (length this) c (policy this) (array this).
Definition with_array (this : t) (a : list V) : t :=
  Build (length this) (capacity this) (policy this) a.

(** What a call leaves behind, with the object as it stands then. *)
Inductive outcome (A : Type) : Type :=
| Returned (r : A) (this : t)
| Thrown (e : error) (this : t)
| OutOfFuel.
Global Arguments Returned {A} r this.
Global Arguments Thrown {A} e this.
Global Arguments OutOfFuel {A}.

Definition bind {A B : Type} (o : outcome A) (k : A -> t -> outcome B)
  : outcome B :=
  match o with
  | Returned r this => k r this
  | Thrown e this => Thrown e this
  | OutOfFuel => OutOfFuel
  end.

(** The second argument of the constructor: a number or an object. *)
Record Options : Type := {
  opt_initialCapacity : option Z;
  opt_policy : option (Z -> Z);
}.

(** [x || 0] on a number. *)
Definition or_zero (x : option Z) : Z := default 0 x.

(** [function DynamicArray(ArrayClass, initialCapacityOrOptions)];
    [inl e] when [new ArrayClass(initialCapacity)] throws. *)
Definition new (initialCapacityOrOptions : Z + Options) : error + t :=
  let '(initialCapacity, policy) :=
    match initialCapacityOrOptions with
    | inl n => (n, DEFAULT_GROWING_POLICY)
    | inr o =>
        (or_zero (opt_initialCapacity o),
         default DEFAULT_GROWING_POLICY (opt_policy o))
    end in
  match new_array initialCapacity with
  | None => inl RangeError
  | Some a => inr (Build 0 initialCapacity policy a)
  end.

(** [DynamicArray.prototype.get] *)
Definition get (this : t) (index : Z) : option V :=
  if length this <? index then None
  else load (array this) index.

(** The growing loop of [set], lines 62-68; [capacity] is the local
    variable read before the loop, here [capacity0]:
    [while (index >= this.capacity) {
       this.capacity = this.policy(this.capacity);
       if (this.capacity <= capacity) throw ...; }] *)
Fixpoint grow_loop (fuel : nat) (capacity0 index : Z) (this : t)
  : outcome unit :=
  if index >=? capacity this then
    match fuel with
    | O => OutOfFuel
    | S fuel' =>
        let this := with_capacity this (policy this (capacity this)) in
        if capacity this <=? capacity0
        then Thrown PolicyViolation_set this
        else grow_loop fuel' capacity0 index this
    end
  else Returned tt this.

(** [var oldArray = this.array;
     this.array = new this.ArrayClass(this.capacity);
     for (...) this.array[i] = oldArray[i];] *)
Definition reallocate (this : t) : outcome unit :=
  let oldArray := array this in
  match new_array (capacity this) with
  | None => Thrown RangeError this
  | Some a =>
      Returned tt (with_array this (transfer oldArray a (length this)))
  end.

(** Lines 78-87 of [set]: the write, the length and [return this]. *)
Definition update_value (this : t) (index : Z) (value : V) : outcome t :=
  let this := with_array this (store (array this) index value) in
  let index := index + 1 in
  let this := if index >? length this then with_length this index
              else this in
  Returned this this.

(** [DynamicArray.prototype.set] *)
Definition set (fuel : nat) (this : t) (index : Z) (value : V)
  : outcome t :=
  let capacity0 := capacity this in
  bind (if index >=? capacity0
        then bind (grow_loop fuel capacity0 index this)
                  (fun _ this => reallocate this)
        else Returned tt this)
       (fun _ this => update_value this index value).

(** [DynamicArray.prototype.grow] *)
Definition grow (this : t) : outcome t :=
  let capacity0 := capacity this in
  let this := with_capacity this (policy this capacity0) in
  if capacity this <=? capacity0
  then Thrown PolicyViolation_grow this
  else bind (reallocate this) (fun _ this => Returned this this).

(** [DynamicArray.prototype.push] *)
Definition push (this : t) (value : V) : outcome Z :=
  bind (if length this >=? capacity this then grow this
        else Returned this this)
       (fun _ this =>
          let this := with_array this
                        (store (array this) (length this) value) in
          let this := with_length this (length this + 1) in
          Returned (length this) this).

(** [DynamicArray.prototype.pop]; [None] is [undefined]. *)
Definition pop (this : t) : outcome (option V) :=
  if length this =? 0 then Returned None this
  else
    let this := with_length this (length this - 1) in
    Returned (load (array this) (length this)) this.

(** The functions a [constructor] property can name here. *)
Inductive constructor_ref : Type :=
| ArrayClass_constructor   (* what a typed array has of its own *)
| DynamicArray_constructor.

(** What [inspect] returns: the slice, with its [type] property and the
    [constructor] property defined on it. *)
Record Proxy : Type := {
  proxy_items : list V;
  proxy_type : String.string;
  proxy_constructor : constructor_ref;
}.

(** [DynamicArray.prototype.inspect]; [name] is [this.ArrayClass.name]. *)
Definition inspect (name : String.string) (this : t) : Proxy :=
  let proxy := slice (array this) 0 (length this) in
  {| proxy_items := proxy;
     proxy_type := name;
     proxy_constructor := DynamicArray_constructor |}.

(** *** Sequences of calls *)

Inductive call : Type :=
| Get (index : Z)
| Set_ (index : Z) (value : V)
| Grow
| Push (value : V)
| Pop.

(** The calls the interface allows: an index is never negative. *)
Definition nonneg_index (c : call) : Prop :=
  match c with
  | Get index | Set_ index _ => 0 <= index
  | _ => True
  end.

(** The calls that take a reallocating branch: [set] from the capacity on
    (line 61), [grow], and [push] on a full buffer (line 133). *)
Definition reallocates (c : call) (this : t) : Prop :=
  match c with
  | Set_ index _ => capacity this <= index
  | Grow => True
  | Push _ => capacity this <= length this
  | Get _ | Pop => False
  end.

(** The indices of the [set] calls that [n] turns of the loop can reach. *)
Definition index_below (n : nat) (c : call) : Prop :=
  match c with
  | Set_ index _ => index < Z.of_nat n
  | _ => True
  end.

(** The object once the call is over, whether it returned or threw. *)
Definition after {A : Type} (o : outcome A) : option t :=
  match o with
  | Returned _ this | Thrown _ this => Some this
  | OutOfFuel => None
  end.

Definition returned {A : Type} (o : outcome A) : bool :=
  match o with Returned _ _ => true | _ => false end.

Definition perform (fuel : nat) (c : call) (this : t) : outcome unit :=
  match c with
  | Get index => let _ := get this index in Returned tt this
  | Set_ index value => bind (set fuel this index value)
                             (fun _ this => Returned tt this)
  | Grow => bind (grow this) (fun _ this => Returned tt this)
  | Push value => bind (push this value) (fun _ this => Returned tt this)
  | Pop => bind (pop this) (fun _ this => Returned tt this)
  end.

(** A caller making the calls one after the other on the same object,
    going on after a call that throws; [None] when a call does not
    finish within [fuel]. *)
Fixpoint run (fuel : nat) (cs : list call) (this : t) : option t :=
  match cs with
  | [] => Some this
  | c :: cs' =>
      match after (perform fuel c this) with
      | Some this => run fuel cs' this
      | None => None
      end
  end.

(** The same calls, stopping at the first one that does not return. *)
Fixpoint run_returning (fuel : nat) (cs : list call) (this : t)
  : outcome unit :=
  match cs with
  | [] => Returned tt this
  | c :: cs' =>
      bind (perform fuel c this) (fun _ this => run_returning fuel cs' this)
  end.

(** [push] of each value in turn, with the numbers returned. *)
Fixpoint push_all (this : t) (values : list V) : outcome (list Z) :=
  match values with
  | [] => Returned [] this
  | value :: values' =>
      bind (push this value) (fun r this =>
      bind (push_all this values') (fun rs this =>
      Returned (r :: rs) this))
  end.

(** The data model of the buffer: [0 <= length <= capacity] and
    [capacity] is the size of the allocated array. *)
Definition wf (this : t) : Prop :=
  0 <= length this <= capacity this /\
  capacity this = Z.of_nat (List.length (array this)).

End WithArrayClass.
Global Arguments t V : clear implicits.
Global Arguments outcome V A : clear implicits.
Global Arguments call V : clear implicits.
Global Arguments Proxy V : clear implicits.

End DynamicArray.

(** ** Policies used in the examples *)

(** Doubles the capacity up to a cap of 4, where it stalls. *)
Definition capped_doubling (c : Z) : Z := Z.min (2 * c) 4.

(** Returns one slot less than it is given. *)
Definition shrinking (c : Z) : Z := c - 1.

(** Always answers 0. *)
Definition no_room (c : Z) : Z := 0.

(** The identity: answers the capacity it is given. *)
Definition same_size (c : Z) : Z := c.

(** Answers [2^53], a size no typed array can have (or the capacity it is
    given, if that is more). *)
Definition too_large (c : Z) : Z := Z.max c 9007199254740992.

(** [{initialCapacity: n, policy: p}] *)
Definition options (n : Z) (p : Z -> Z) : Z + DynamicArray.Options :=
  inr {| DynamicArray.opt_initialCapacity := Some n;
         DynamicArray.opt_policy := Some p |}.

(** ** Buffers used in the examples, on an [Int32Array] *)

(** [new DynamicInt32Array(1)] *)
Definition fresh_1 : DynamicArray.t Z :=
  DynamicArray.Build 0 1 DEFAULT_GROWING_POLICY [0].

(** [new DynamicInt32Array(2)] *)
Definition fresh_2 : DynamicArray.t Z :=
  DynamicArray.Build 0 2 DEFAULT_GROWING_POLICY [0; 0].

(** [new DynamicInt32Array(2)] after [push(10)] and [push(20)]: full. *)
Definition full_2 : DynamicArray.t Z :=
  DynamicArray.Build 2 2 DEFAULT_GROWING_POLICY [10; 20].

(** The same after [push(30)], which grew it to 3 slots. *)
Definition full_3 : DynamicArray.t Z :=
  DynamicArray.Build 3 3 DEFAULT_GROWING_POLICY [10; 20; 30].

(** [fresh_1] after [set(5, 7)]: 1 -> 2 -> 3 -> 5 -> 8 slots. *)
Definition sparse_8 : DynamicArray.t Z :=
  DynamicArray.Build 6 8 DEFAULT_GROWING_POLICY [0; 0; 0; 0; 0; 7; 0; 0].

(** [new DynamicInt32Array(0)] *)
Definition fresh_0 : DynamicArray.t Z :=
  DynamicArray.Build 0 0 DEFAULT_GROWING_POLICY [].

(** [full_2] after two calls of [pop]: empty, with the old values left in
    its slots. *)
Definition popped_2 : DynamicArray.t Z :=
  DynamicArray.Build 0 2 DEFAULT_GROWING_POLICY [10; 20].

(** [popped_2] after [set(3, 7)]: 2 -> 3 -> 5 slots. *)
Definition regrown_5 : DynamicArray.t Z :=
  DynamicArray.Build 4 5 DEFAULT_GROWING_POLICY [0; 0; 0; 7; 0].

(** Empty buffers of 1 slot with the [same_size] and the [too_large]
    policy. *)
Definition same_size_1 : DynamicArray.t Z :=
  DynamicArray.Build 0 1 same_size [0].
Definition too_large_1 : DynamicArray.t Z :=
  DynamicArray.Build 0 1 too_large [0].

(** [too_large_1] after [push(7)], and the same after a second [push] that
    threw at the allocation. *)
Definition too_large_1_full : DynamicArray.t Z :=
  DynamicArray.Build 1 1 too_large [7].
Definition too_large_1_failed : DynamicArray.t Z :=
  DynamicArray.Build 1 9007199254740992 too_large [7].

(** A buffer of 3 slots with the [shrinking] policy, and the same after a
    call of [grow] that threw. *)
Definition shrinking_3 : DynamicArray.t Z :=
  DynamicArray.Build 0 3 shrinking [0; 0; 0].
Definition shrinking_3_failed : DynamicArray.t Z :=
  DynamicArray.Build 0 2 shrinking [0; 0; 0].

(** * Properties *)

(** ** The typed array *)

Section TypedArrayFacts.
Context {V : Type} `{AC : ArrayClass V}.
Implicit Types (a : list V) (i j n : Z) (x : V).

Lemma new_array_Some n a :
  new_array n = Some a ->
  0 <= n <= max_length /\ a = replicate (Z.to_nat n) fresh_slot.
Proof.
  unfold new_array. destruct (Z.ltb_spec n 0); [discriminate|].
  destruct (Z.ltb_spec max_length n); [discriminate|]. simpl.
  intros [= <-]. split; [lia | reflexivity].
Qed.

Lemma new_array_nonneg n :
  0 <= n <= max_length ->
  new_array n = Some (replicate (Z.to_nat n) fresh_slot).
Proof.
  intros Hn. unfold new_array. destruct (Z.ltb_spec n 0); [lia|].
  destruct (Z.ltb_spec max_length n); [lia | reflexivity].
Qed.

Lemma new_array_None n :
  new_array n = None -> n < 0 \/ max_length < n.
Proof.
  unfold new_array. destruct (Z.ltb_spec n 0); [auto|].
  destruct (Z.ltb_spec max_length n); [auto | discriminate].
Qed.

Lemma new_array_length n a :
  new_array n = Some a -> Z.of_nat (List.length a) = n.
Proof.
  intros [Hn ->]%new_array_Some. rewrite length_replicate. lia.
Qed.

Lemma length_store a i x : List.length (store a i x) = List.length a.
Proof.
  unfold store. destruct (i <? 0); [reflexivity | apply length_insert].
Qed.

Lemma load_store_eq a i x :
  0 <= i < Z.of_nat (List.length a) -> load (store a i x) i = Some x.
Proof.
  intros Hi. unfold load, store. destruct (Z.ltb_spec i 0); [lia|].
  apply list_lookup_insert_eq. lia.
Qed.

Lemma load_store_ne a i j x : i <> j -> load (store a i x) j = load a j.
Proof.
  intros Hij. unfold load, store.
  destruct (Z.ltb_spec j 0); [reflexivity|].
  destruct (Z.ltb_spec i 0); [reflexivity|].
  apply list_lookup_insert_ne. lia.
Qed.

Lemma load_Some_lt a i x :
  load a i = Some x -> 0 <= i < Z.of_nat (List.length a).
Proof.
  unfold load. destruct (Z.ltb_spec i 0); [discriminate|].
  intros Hl%lookup_lt_Some. lia.
Qed.

Lemma load_in_range a i :
  0 <= i < Z.of_nat (List.length a) -> exists x, load a i = Some x.
Proof.
  intros Hi. unfold load. destruct (Z.ltb_spec i 0); [lia|].
  apply lookup_lt_is_Some_2. lia.
Qed.

Lemma load_out_of_range a i :
  Z.of_nat (List.length a) <= i -> load a i = None.
Proof.
  intros Hi. unfold load. destruct (Z.ltb_spec i 0); [reflexivity|].
  apply lookup_ge_None_2. lia.
Qed.

Lemma store_load_id a i x : load a i = Some x -> store a i x = a.
Proof.
  unfold load, store. destruct (Z.ltb_spec i 0); [discriminate|].
  apply list_insert_id.
Qed.

Lemma length_transfer_from oldArray (n : nat) : forall a i,
  List.length (transfer_from oldArray a i n) = List.length a.
Proof.
  induction n as [|n IH]; intros a i; simpl; [reflexivity|].
  rewrite IH. apply length_store.
Qed.

(** A slot of the new array after the copy loop: a copy when the loop went
    over it, untouched otherwise. *)
Lemma load_transfer_from oldArray (n : nat) : forall a i j,
  0 <= i ->
  load (transfer_from oldArray a i n) j =
    if decide (i <= j < i + Z.of_nat n /\ j < Z.of_nat (List.length a))
    then Some (of_js (load oldArray j))
    else load a j.
Proof.
  induction n as [|n IH]; intros a i j Hi; simpl.
  - case_decide; [lia | reflexivity].
  - rewrite IH by lia. rewrite length_store.
    destruct (decide (j = i)) as [->|Hne].
    + repeat case_decide; try lia; try reflexivity.
      * apply load_store_eq. lia.
      * rewrite load_out_of_range by (rewrite length_store; lia).
        symmetry. apply load_out_of_range. lia.
    + rewrite load_store_ne by congruence.
      repeat case_decide; try lia; reflexivity.
Qed.

Lemma length_transfer oldArray a l :
  List.length (transfer oldArray a l) = List.length a.
Proof. apply length_transfer_from. Qed.

(** The copy keeps every slot below [l] that both arrays have. *)
Lemma load_transfer oldArray a l j :
  0 <= j < l ->
  j < Z.of_nat (List.length oldArray) ->
  j < Z.of_nat (List.length a) ->
  load (transfer oldArray a l) j = load oldArray j.
Proof.
  intros Hj Hold Hnew. unfold transfer.
  rewrite load_transfer_from by lia.
  case_decide; [|lia].
  destruct (load_in_range oldArray j) as [x ->]; [lia | reflexivity].
Qed.

End TypedArrayFacts.

(** ** The default policy *)

Lemma DEFAULT_GROWING_POLICY_div c :
  DEFAULT_GROWING_POLICY c = (3 * c + 1) / 2.
Proof.
  unfold DEFAULT_GROWING_POLICY, Qceiling, Qfloor, Qopp, Qmult, inject_Z.
  cbn [Qnum Qden]. Z.div_mod_to_equations. lia.
Qed.

Lemma DEFAULT_GROWING_POLICY_increases c :
  1 <= c -> c < DEFAULT_GROWING_POLICY c.
Proof.
  intros Hc. rewrite DEFAULT_GROWING_POLICY_div.
  Z.div_mod_to_equations. lia.
Qed.

Lemma DEFAULT_GROWING_POLICY_zero : DEFAULT_GROWING_POLICY 0 = 0.
Proof. reflexivity. Qed.

(** ** The dynamic array *)

Import DynamicArray.

Section DynamicArrayFacts.
Context {V : Type} `{AC : ArrayClass V}.
Implicit Types (this : t V) (index c : Z) (value : V) (fuel : nat).

Lemma with_capacity_id this : with_capacity this (capacity this) = this.
Proof. destruct this; reflexivity. Qed.

(** *** The constructor *)

Lemma new_inr o this :
  new o = inr this ->
  length this = 0 /\ 0 <= capacity this /\
  array this = replicate (Z.to_nat (capacity this)) fresh_slot.
Proof.
  unfold new.
  destruct (match o with inl n => _ | inr o' => _ end) as [c p].
  destruct (new_array c) as [a|] eqn:Ha; [|discriminate].
  intros [= <-]. apply new_array_Some in Ha as [Hc ->]. simpl.
  split; [reflexivity|]. split; [lia | reflexivity].
Qed.

(** The constructor returns for every size that the array class
    allocates. *)
Lemma new_number n :
  0 <= n <= max_length ->
  new (inl n)
    = inr (Build 0 n DEFAULT_GROWING_POLICY
                 (replicate (Z.to_nat n) fresh_slot)).
Proof.
  intros Hn. unfold new. rewrite new_array_nonneg by exact Hn. reflexivity.
Qed.

Lemma new_options n p :
  0 <= n <= max_length ->
  new (options n p) = inr (Build 0 n p (replicate (Z.to_nat n) fresh_slot)).
Proof.
  intros Hn. unfold new, options. simpl.
  rewrite new_array_nonneg by exact Hn. reflexivity.
Qed.

Lemma wf_new o this : new o = inr this -> wf this.
Proof.
  intros (Hl & Hc & Ha)%new_inr. unfold wf.
  rewrite Hl, Ha, length_replicate. lia.
Qed.

(** *** [get] *)

Lemma get_beyond_length this index :
  length this < index -> get this index = None.
Proof.
  intros H. unfold get. destruct (Z.ltb_spec (length this) index); [reflexivity | lia].
Qed.

Lemma get_upto_length this index :
  index <= length this -> get this index = load (array this) index.
Proof.
  intros H. unfold get. destruct (Z.ltb_spec (length this) index); [lia | reflexivity].
Qed.

(** *** The growing loop of [set] *)

Lemma grow_loop_Returned fuel c0 index : forall this this',
  grow_loop fuel c0 index this = Returned tt this' ->
  this' = with_capacity this (capacity this') /\
  index < capacity this' /\
  (c0 < capacity this \/ capacity this <= index -> c0 < capacity this').
Proof.
  induction fuel as [|fuel IH]; intros this this'; simpl;
    rewrite Z.geb_leb; destruct (Z.leb_spec (capacity this) index) as [Hge|Hlt];
    try discriminate.
  - intros [= <-]. rewrite with_capacity_id. split; [reflexivity | lia].
  - destruct (Z.leb_spec (policy this (capacity this)) c0) as [Hle|Hgt];
      [discriminate|].
    intros Hrec. apply IH in Hrec as (Heq & Hidx & Hc0).
    destruct this as [l c p a]; simpl in *. auto.
  - intros [= <-]. rewrite with_capacity_id. split; [reflexivity | lia].
Qed.

Lemma grow_loop_Thrown fuel c0 index : forall this e this',
  grow_loop fuel c0 index this = Thrown e this' ->
  e = PolicyViolation_set /\
  this' = with_capacity this (capacity this') /\
  capacity this' <= c0.
Proof.
  induction fuel as [|fuel IH]; intros this e this'; simpl;
    rewrite Z.geb_leb; destruct (Z.leb_spec (capacity this) index) as [Hge|Hlt];
    try discriminate.
  destruct (Z.leb_spec (policy this (capacity this)) c0) as [Hle|Hgt].
  - intros [= <- <-]. destruct this; simpl in *. auto.
  - intros Hrec. apply IH in Hrec as (He & Heq & Hc0).
    destruct this; simpl in *. auto.
Qed.

(** More fuel does not change a run that finished. *)
Lemma grow_loop_fuel_mono fuel c0 index : forall this fuel',
  grow_loop fuel c0 index this <> OutOfFuel ->
  (fuel <= fuel')%nat ->
  grow_loop fuel' c0 index this = grow_loop fuel c0 index this.
Proof.
  induction fuel as [|fuel IH]; intros this fuel' Hfin Hle.
  - destruct fuel' as [|fuel']; [reflexivity|]. simpl in *.
    destruct (index >=? capacity this); [congruence | reflexivity].
  - destruct fuel' as [|fuel']; [lia|]. simpl in *.
    destruct (index >=? capacity this); [|reflexivity].
    destruct (policy this (capacity this) <=? c0); [reflexivity|].
    apply IH; [exact Hfin | lia].
Qed.

(** With a policy that increases every capacity from the current one up to
    [index], the loop ends, without throwing, within [index - capacity + 1]
    turns. *)
Lemma grow_loop_increasing fuel c0 index : forall this,
  (forall c, capacity this <= c <= index -> c < policy this c) ->
  c0 <= capacity this ->
  (Z.to_nat (index - capacity this + 1) <= fuel)%nat ->
  exists this', grow_loop fuel c0 index this = Returned tt this'.
Proof.
  induction fuel as [|fuel IH]; intros this Hpol Hc0 Hfuel; simpl;
    rewrite Z.geb_leb; destruct (Z.leb_spec (capacity this) index) as [Hge|Hlt];
    eauto; [lia|].
  pose proof (Hpol (capacity this) ltac:(lia)) as Hinc.
  destruct (Z.leb_spec (policy this (capacity this)) c0) as [Hle|Hgt]; [lia|].
  apply IH; destruct this as [l c p a]; simpl in *.
  - intros c' Hc'. apply Hpol. lia.
  - lia.
  - lia.
Qed.

(** When the answers of the policy on those capacities stay within [B], so
    does the capacity the loop ends with. *)
Lemma grow_loop_bounded fuel c0 index B : forall this this',
  (forall c, capacity this <= c <= index -> c < policy this c <= B) ->
  grow_loop fuel c0 index this = Returned tt this' ->
  capacity this' <= Z.max (capacity this) B.
Proof.
  induction fuel as [|fuel IH]; intros this this' Hpol; simpl;
    rewrite Z.geb_leb; destruct (Z.leb_spec (capacity this) index) as [Hge|Hlt];
    try discriminate.
  - intros [= <-]. lia.
  - pose proof (Hpol (capacity this) ltac:(lia)) as Hinc.
    destruct (policy this (capacity this) <=? c0); [discriminate|].
    intros Hrec. apply IH in Hrec.
    + simpl in Hrec. lia.
    + destruct this as [l c p a]; simpl in *.
      intros c' Hc'. apply Hpol. lia.
  - intros [= <-]. lia.
Qed.

(** *** Reallocation *)

Lemma reallocate_Returned this this' :
  reallocate this = Returned tt this' ->
  0 <= capacity this <= max_length /\
  this' = with_array this
            (transfer (array this)
               (replicate (Z.to_nat (capacity this)) fresh_slot)
               (length this)).
Proof.
  unfold reallocate.
  destruct (new_array (capacity this)) as [a|] eqn:Ha; [|discriminate].
  apply new_array_Some in Ha as [Hc ->]. intros [= <-]. auto.
Qed.

Lemma reallocate_nonneg this :
  0 <= capacity this <= max_length ->
  exists this', reallocate this = Returned tt this'.
Proof.
  intros Hc. unfold reallocate. rewrite new_array_nonneg by exact Hc. eauto.
Qed.

Lemma reallocate_Thrown this e this' :
  reallocate this = Thrown e this' ->
  e = RangeError /\ this' = this /\
  (capacity this < 0 \/ max_length < capacity this).
Proof.
  unfold reallocate.
  destruct (new_array (capacity this)) eqn:Ha; [discriminate|].
  apply new_array_None in Ha. intros [= <- <-]. auto.
Qed.

Lemma reallocate_not_OutOfFuel this : reallocate this <> OutOfFuel.
Proof. unfold reallocate. destruct (new_array _); discriminate. Qed.

(** The new block has [capacity] slots, and the fields other than [array]
    are kept. *)
Lemma reallocate_fields this this' :
  reallocate this = Returned tt this' ->
  length this' = length this /\ capacity this' = capacity this /\
  policy this' = policy this /\
  Z.of_nat (List.length (array this')) = capacity this.
Proof.
  intros [Hc ->]%reallocate_Returned. simpl.
  rewrite length_transfer, length_replicate. repeat split; lia.
Qed.

(** The copy loop carries over the slots below [length], when the new block
    is at least that long. *)
Lemma reallocate_prefix this this' i :
  reallocate this = Returned tt this' ->
  length this <= capacity this ->
  length this <= Z.of_nat (List.length (array this)) ->
  0 <= i < length this ->
  load (array this') i = load (array this) i.
Proof.
  intros [Hc ->]%reallocate_Returned Hlc Hla Hi. simpl.
  apply load_transfer; [lia | lia |]. rewrite length_replicate. lia.
Qed.

(** *** [set] *)

Lemma update_value_eq this index value :
  update_value this index value =
    let this' := Build (Z.max (length this) (index + 1)) (capacity this)
                       (policy this) (store (array this) index value) in
    Returned this' this'.
Proof.
  unfold update_value. simpl. rewrite Z.gtb_ltb.
  destruct (Z.ltb_spec (length this) (index + 1)); unfold with_length, with_array;
    simpl.
  - rewrite Z.max_r by lia. reflexivity.
  - rewrite Z.max_l by lia. reflexivity.
Qed.

(** Below the capacity the growing branch is skipped. *)
Lemma set_below_capacity fuel this index value :
  index < capacity this ->
  set fuel this index value = update_value this index value.
Proof.
  intros Hlt. unfold set. rewrite Z.geb_leb.
  destruct (Z.leb_spec (capacity this) index); [lia | reflexivity].
Qed.

(** From the capacity on, a call that returns went through the loop, the
    reallocation and the write. *)
Lemma set_from_capacity_Returned fuel this index value r this' :
  capacity this <= index ->
  set fuel this index value = Returned r this' ->
  exists this1 this2,
    grow_loop fuel (capacity this) index this = Returned tt this1 /\
    reallocate this1 = Returned tt this2 /\
    update_value this2 index value = Returned r this'.
Proof.
  intros Hge. unfold set. rewrite Z.geb_leb.
  destruct (Z.leb_spec (capacity this) index); [|lia].
  destruct (grow_loop fuel (capacity this) index this) as [[] this1| |] eqn:Hloop;
    simpl; try discriminate.
  destruct (reallocate this1) as [[] this2| |] eqn:Hre; simpl; try discriminate.
  eauto.
Qed.

(** A call of [set] that throws leaves [length] and the array as they were.
    It throws either at the sanity check, with [capacity] overwritten by a
    value not above the old one, or at the allocation, with [capacity]
    overwritten by a value above [index] that the array class refuses. *)
Lemma set_Thrown fuel this index value e this' :
  0 <= index ->
  set fuel this index value = Thrown e this' ->
  this' = with_capacity this (capacity this') /\
  (e = PolicyViolation_set /\ capacity this' <= capacity this
   \/ e = RangeError /\ capacity this <= index < capacity this' /\
      max_length < capacity this').
Proof.
  intros Hi. unfold set. rewrite Z.geb_leb.
  destruct (Z.leb_spec (capacity this) index).
  - destruct (grow_loop fuel (capacity this) index this) as [[] this1| |] eqn:Hloop;
      simpl; try discriminate.
    + apply grow_loop_Returned in Hloop as (Heq & Hidx & _).
      destruct (reallocate this1) as [[] this2| |] eqn:Hre; simpl.
      * rewrite update_value_eq. discriminate.
      * intros [= <- <-].
        apply reallocate_Thrown in Hre as (-> & -> & Hrange).
        split; [exact Heq|]. right. split; [reflexivity|]. lia.
      * discriminate.
    + intros [= <- <-]. apply grow_loop_Thrown in Hloop as (-> & Heq & Hle).
      auto.
  - simpl. rewrite update_value_eq. discriminate.
Qed.

(** With a policy that, on every capacity from the current one up to
    [index], answers more than it is given and no more than the array class
    allocates, [set] returns, given enough fuel for the loop. *)
Lemma set_returns fuel this index value :
  0 <= capacity this ->
  (forall c, capacity this <= c <= index -> c < policy this c <= max_length) ->
  (Z.to_nat (index - capacity this + 1) <= fuel)%nat ->
  exists this', set fuel this index value = Returned this' this'.
Proof.
  intros Hc Hpol Hfuel. unfold set. rewrite Z.geb_leb.
  destruct (Z.leb_spec (capacity this) index).
  - destruct (grow_loop_increasing fuel (capacity this) index this)
      as [this1 Hloop]; [intros c Hcc; apply Hpol; exact Hcc | lia
                        | exact Hfuel |].
    rewrite Hloop. simpl.
    pose proof (grow_loop_bounded _ _ _ _ _ _ Hpol Hloop) as Hbound.
    apply grow_loop_Returned in Hloop as (Heq & Hidx & _).
    destruct (reallocate_nonneg this1) as [this2 ->]; [lia|].
    simpl. rewrite update_value_eq. eauto.
  - simpl. rewrite update_value_eq. eauto.
Qed.

(** With a policy that increases every capacity from the current one up to
    [index], [set] ends, given enough fuel for the loop: it returns, or the
    array class refuses the size and it throws a [RangeError]. *)
Lemma set_returns_or_RangeError fuel this index value :
  (forall c, capacity this <= c <= index -> c < policy this c) ->
  (Z.to_nat (index - capacity this + 1) <= fuel)%nat ->
  exists this',
    set fuel this index value = Returned this' this' \/
    set fuel this index value = Thrown RangeError this'.
Proof.
  intros Hpol Hfuel. unfold set. rewrite Z.geb_leb.
  destruct (Z.leb_spec (capacity this) index).
  - destruct (grow_loop_increasing fuel (capacity this) index this)
      as [this1 Hloop]; [exact Hpol | lia | exact Hfuel |].
    rewrite Hloop. simpl.
    destruct (reallocate this1) as [[] this2|e this2|] eqn:Hre; simpl.
    + rewrite update_value_eq. eauto.
    + apply reallocate_Thrown in Hre as (-> & -> & _). eauto.
    + destruct (reallocate_not_OutOfFuel _ Hre).
  - simpl. rewrite update_value_eq. eauto.
Qed.

(** More fuel does not change a call of [set] that finished. *)
Lemma set_fuel_mono fuel fuel' this index value :
  set fuel this index value <> OutOfFuel ->
  (fuel <= fuel')%nat ->
  set fuel' this index value = set fuel this index value.
Proof.
  unfold set. destruct (index >=? capacity this); [|reflexivity].
  intros Hfin Hle. rewrite (grow_loop_fuel_mono fuel); [reflexivity| |exact Hle].
  intros Hout. rewrite Hout in Hfin. simpl in Hfin. congruence.
Qed.

(** *** [grow] *)

Lemma grow_Returned this r this' :
  grow this = Returned r this' ->
  r = this' /\
  capacity this < policy this (capacity this) /\
  reallocate (with_capacity this (policy this (capacity this)))
    = Returned tt this'.
Proof.
  unfold grow. cbn [capacity with_capacity].
  destruct (Z.leb_spec (policy this (capacity this)) (capacity this));
    [discriminate|].
  destruct (reallocate _) as [[] this2| |] eqn:Hre; simpl; try discriminate.
  intros [= <- <-]. auto.
Qed.

(** A call of [grow] that throws has already assigned [this.capacity]: it
    throws at the sanity check, or at the allocation of a size that the
    array class refuses. *)
Lemma grow_Thrown this e this' :
  grow this = Thrown e this' ->
  this' = with_capacity this (policy this (capacity this)) /\
  (e = PolicyViolation_grow /\ policy this (capacity this) <= capacity this
   \/ e = RangeError /\ capacity this < policy this (capacity this) /\
      (policy this (capacity this) < 0 \/
       max_length < policy this (capacity this))).
Proof.
  unfold grow. cbn [capacity with_capacity].
  destruct (Z.leb_spec (policy this (capacity this)) (capacity this)).
  - intros [= <- <-]. auto.
  - destruct (reallocate _) as [[] this2|e2 this2|] eqn:Hre; simpl;
      try discriminate.
    intros [= <- <-].
    apply reallocate_Thrown in Hre as (-> & -> & Hrange). simpl in Hrange.
    auto.
Qed.

Lemma grow_returns this :
  0 <= capacity this ->
  capacity this < policy this (capacity this) <= max_length ->
  exists this', grow this = Returned this' this'.
Proof.
  intros Hc Hinc. unfold grow. cbn [capacity with_capacity].
  destruct (Z.leb_spec (policy this (capacity this)) (capacity this)); [lia|].
  destruct (reallocate_nonneg
              (with_capacity this (policy this (capacity this))))
    as [this' ->]; [simpl; lia|].
  simpl. eauto.
Qed.

Lemma grow_not_OutOfFuel this : grow this <> OutOfFuel.
Proof.
  unfold grow. destruct (_ <=? _); [discriminate|].
  unfold reallocate. destruct (new_array _); discriminate.
Qed.

(** *** The data model along returning calls *)

Lemma wf_update_value this index value r this' :
  wf this -> 0 <= index < capacity this ->
  update_value this index value = Returned r this' -> wf this'.
Proof.
  intros [Hl Hc] Hi. rewrite update_value_eq. cbv zeta. intros [= _ <-].
  unfold wf. simpl. rewrite length_store. lia.
Qed.

Lemma wf_reallocate this this' :
  0 <= length this <= capacity this ->
  reallocate this = Returned tt this' -> wf this'.
Proof.
  intros Hl (Hl' & Hc' & _ & Ha')%reallocate_fields. unfold wf. lia.
Qed.

Lemma wf_set fuel this index value r this' :
  wf this -> 0 <= index ->
  set fuel this index value = Returned r this' -> wf this'.
Proof.
  intros Hwf Hi Hset.
  destruct (Z.le_gt_cases (capacity this) index) as [Hge|Hlt].
  - apply set_from_capacity_Returned in Hset
      as (this1 & this2 & Hloop & Hre & Hup); [|exact Hge].
    apply grow_loop_Returned in Hloop as (Heq & Hidx & Hc0).
    assert (wf this2) as Hwf2.
    { apply (wf_reallocate this1); [|exact Hre].
      rewrite Heq. simpl. destruct Hwf as [Hl _]. lia. }
    apply (wf_update_value this2 index value r); [exact Hwf2| |exact Hup].
    apply reallocate_fields in Hre as (_ & -> & _). lia.
  - rewrite set_below_capacity in Hset by exact Hlt.
    apply (wf_update_value this index value r); [exact Hwf | lia | exact Hset].
Qed.

Lemma wf_grow this r this' :
  wf this -> grow this = Returned r this' -> wf this'.
Proof.
  intros [Hl Hc] (_ & Hinc & Hre)%grow_Returned.
  eapply wf_reallocate; [|exact Hre]. simpl. lia.
Qed.

Lemma wf_push this value r this' :
  wf this -> push this value = Returned r this' -> wf this'.
Proof.
  intros Hwf. unfold push. rewrite Z.geb_leb.
  destruct (Z.leb_spec (capacity this) (length this)) as [Hfull|Hroom].
  - destruct (grow this) as [r1 this1| |] eqn:Hgrow; simpl; try discriminate.
    intros [= _ <-].
    pose proof (wf_grow _ _ _ Hwf Hgrow) as [Hl1 Hc1].
    apply grow_Returned in Hgrow as (_ & Hinc & Hre).
    apply reallocate_fields in Hre as (Hl' & Hc' & _ & Ha'). simpl in *.
    destruct Hwf as [Hl Hc].
    unfold wf. simpl. rewrite length_store. lia.
  - simpl. intros [= _ <-]. destruct Hwf as [Hl Hc].
    unfold wf. simpl. rewrite length_store. lia.
Qed.

Lemma wf_pop this r this' :
  wf this -> pop this = Returned r this' -> wf this'.
Proof.
  intros [Hl Hc]. unfold pop.
  destruct (Z.eqb_spec (length this) 0).
  - intros [= _ <-]. split; assumption.
  - intros [= _ <-]. unfold wf. simpl. lia.
Qed.

Lemma wf_perform fuel (c : call V) this this' :
  wf this -> nonneg_index c ->
  perform fuel c this = Returned tt this' -> wf this'.
Proof.
  intros Hwf Hc. destruct c as [index|index value| |value|]; simpl.
  - intros [= <-]. exact Hwf.
  - destruct (set fuel this index value) as [r this1| |] eqn:Hset;
      simpl; try discriminate.
    intros [= <-]. exact (wf_set _ _ _ _ _ _ Hwf Hc Hset).
  - destruct (grow this) as [r this1| |] eqn:Hgrow; simpl; try discriminate.
    intros [= <-]. exact (wf_grow _ _ _ Hwf Hgrow).
  - destruct (push this value) as [r this1| |] eqn:Hpush;
      simpl; try discriminate.
    intros [= <-]. exact (wf_push _ _ _ _ Hwf Hpush).
  - destruct (pop this) as [r this1| |] eqn:Hpop; simpl; try discriminate.
    intros [= <-]. exact (wf_pop _ _ _ Hwf Hpop).
Qed.

(** X18. As long as every call returns, the data model holds after any
    sequence of calls with indices that are not negative, whatever the
    policy. *)
Lemma wf_run_returning fuel (cs : list (call V)) : forall this this',
  wf this -> Forall nonneg_index cs ->
  run_returning fuel cs this = Returned tt this' -> wf this'.
Proof.
  induction cs as [|c cs IH]; intros this this' Hwf Hcs; simpl.
  - intros [= <-]. exact Hwf.
  - apply Forall_cons in Hcs as [Hc Hcs].
    destruct (perform fuel c this) as [[] this1| |] eqn:Hc1;
      simpl; try discriminate.
    apply IH; [|exact Hcs]. exact (wf_perform _ _ _ _ Hwf Hc Hc1).
Qed.

(** *** Calls that throw, under a policy that never answers less than the
    capacity (zero or more) it is given

    Then the value assigned to [this.capacity] before a failed sanity check
    is the old capacity itself, and the object is as it was; a call that
    throws otherwise was refused an allocation. *)

Lemma grow_loop_Thrown_ge fuel c0 index : forall this e this',
  (forall k, 0 <= k -> k <= policy this k) ->
  0 <= capacity this ->
  grow_loop fuel c0 index this = Thrown e this' ->
  capacity this <= capacity this'.
Proof.
  induction fuel as [|fuel IH]; intros this e this' Hpol Hc; simpl;
    rewrite Z.geb_leb; destruct (Z.leb_spec (capacity this) index) as [Hge|Hlt];
    try discriminate.
  pose proof (Hpol (capacity this) Hc) as Hk.
  destruct (Z.leb_spec (policy this (capacity this)) c0) as [Hle|Hgt].
  - intros [= _ <-]. simpl. exact Hk.
  - intros Hrec. apply IH in Hrec; [|exact Hpol|simpl; lia].
    simpl in Hrec. lia.
Qed.

Lemma set_Thrown_unchanged fuel this index value e this' :
  0 <= index ->
  0 <= capacity this ->
  (forall k, 0 <= k -> k <= policy this k) ->
  set fuel this index value = Thrown e this' ->
  e = PolicyViolation_set /\ this' = this \/
  e = RangeError /\ capacity this <= index < capacity this' /\
  max_length < capacity this'.
Proof.
  intros Hi Hc Hpol Hset.
  pose proof (set_Thrown _ _ _ _ _ _ Hi Hset) as (Heq & [[-> Hle]|Hrange]);
    [left; split; [reflexivity|] | right; exact Hrange].
  assert (capacity this <= capacity this') as Hge.
  { revert Hset. unfold set. rewrite Z.geb_leb.
    destruct (Z.leb_spec (capacity this) index).
    - destruct (grow_loop fuel (capacity this) index this)
        as [[] this1| |] eqn:Hloop; simpl; try discriminate.
      + destruct (reallocate this1) as [[] this2| |] eqn:Hre; simpl.
        * rewrite update_value_eq. discriminate.
        * apply reallocate_Thrown in Hre as (-> & _). discriminate.
        * discriminate.
      + intros [= _ <-].
        exact (grow_loop_Thrown_ge _ _ _ _ _ _ Hpol Hc Hloop).
    - simpl. rewrite update_value_eq. discriminate. }
  rewrite Heq. replace (capacity this') with (capacity this) by lia.
  apply with_capacity_id.
Qed.

Lemma grow_Thrown_unchanged this e this' :
  0 <= capacity this ->
  (forall k, 0 <= k -> k <= policy this k) ->
  grow this = Thrown e this' ->
  e = PolicyViolation_grow /\ this' = this \/
  e = RangeError /\ capacity this < capacity this' /\
  max_length < capacity this'.
Proof.
  intros Hc Hpol (-> & Hcase)%grow_Thrown.
  pose proof (Hpol (capacity this) Hc) as Hk.
  destruct Hcase as [[-> Hle]|(-> & Hinc & Hrange)].
  - left. split; [reflexivity|].
    replace (policy this (capacity this)) with (capacity this) by lia.
    apply with_capacity_id.
  - right. simpl. split; [reflexivity|]. lia.
Qed.

Lemma update_value_policy this index value r this' :
  update_value this index value = Returned r this' ->
  policy this' = policy this.
Proof. rewrite update_value_eq. cbv zeta. intros [= _ <-]. reflexivity. Qed.

Lemma set_Returned_policy fuel this index value r this' :
  set fuel this index value = Returned r this' ->
  policy this' = policy this.
Proof.
  intros Hset. destruct (Z.le_gt_cases (capacity this) index) as [Hge|Hlt].
  - apply set_from_capacity_Returned in Hset
      as (this1 & this2 & Hloop & Hrealloc & Hup); [|exact Hge].
    apply grow_loop_Returned in Hloop as (Heq & _).
    apply reallocate_fields in Hrealloc as (_ & _ & Hp2 & _).
    apply update_value_policy in Hup. rewrite Hup, Hp2, Heq. reflexivity.
  - rewrite set_below_capacity in Hset by exact Hlt.
    exact (update_value_policy _ _ _ _ _ Hset).
Qed.

Lemma grow_Returned_policy this r this' :
  grow this = Returned r this' -> policy this' = policy this.
Proof.
  intros (_ & _ & Hrealloc)%grow_Returned.
  apply reallocate_fields in Hrealloc as (_ & _ & Hp & _). exact Hp.
Qed.

(** *** [push] and [pop] *)

(** One [push] on a buffer meeting the data model, when the policy
    increases the capacity, to a size that the array class allocates, in
    case the buffer is full. *)
Lemma push_spec this value :
  wf this ->
  (capacity this <= length this ->
   capacity this < policy this (capacity this) <= max_length) ->
  exists this',
    push this value = Returned (length this + 1) this' /\
    wf this' /\
    length this' = length this + 1 /\
    policy this' = policy this /\
    capacity this <= capacity this' /\
    (forall i, 0 <= i < length this ->
               load (array this') i = load (array this) i) /\
    load (array this') (length this) = Some value.
Proof.
  intros [Hl Hc] Hpol. unfold push. rewrite Z.geb_leb.
  destruct (Z.leb_spec (capacity this) (length this)) as [Hfull|Hroom].
  - destruct (grow_returns this) as [this1 Hgrow]; [lia | auto |].
    rewrite Hgrow. simpl.
    apply grow_Returned in Hgrow as (_ & Hinc & Hre).
    pose proof (reallocate_fields _ _ Hre) as (Hl1 & Hc1 & Hp1 & Ha1).
    simpl in Hl1, Hc1, Hp1, Ha1. rewrite Hl1.
    eexists. split; [reflexivity|]. simpl.
    split; [unfold wf; simpl; rewrite length_store; lia|].
    split; [reflexivity|]. split; [exact Hp1|]. split; [lia|]. split.
    + intros i Hi. rewrite load_store_ne by lia.
      apply (reallocate_prefix _ _ i Hre); simpl; lia.
    + apply load_store_eq. lia.
  - simpl. eexists. split; [reflexivity|]. simpl.
    split; [unfold wf; simpl; rewrite length_store; lia|].
    split; [reflexivity|]. split; [reflexivity|]. split; [lia|]. split.
    + intros i Hi. apply load_store_ne. lia.
    + apply load_store_eq. lia.
Qed.

(** Pushing a list of values in turn, when the policy increases every
    capacity from the current one up to the last length but one, to a size
    that the array class allocates: the calls return the successive lengths,
    the slots already in use are kept and the new ones hold the values in
    order. *)
Lemma push_all_from (values : list V) : forall this,
  wf this ->
  (forall c, capacity this <= c < length this + Z.of_nat (List.length values) ->
             c < policy this c <= max_length) ->
  exists this',
    push_all this values
      = Returned (seqZ (length this + 1) (Z.of_nat (List.length values))) this' /\
    wf this' /\
    length this' = length this + Z.of_nat (List.length values) /\
    (forall i, 0 <= i < length this ->
               load (array this') i = load (array this) i) /\
    (forall i, 0 <= i < Z.of_nat (List.length values) ->
               load (array this') (length this + i) = values !! Z.to_nat i).
Proof.
  induction values as [|value values IH]; intros this Hwf Hpol.
  - exists this. simpl. split; [reflexivity|]. split; [exact Hwf|].
    split; [lia|]. split; [reflexivity|]. intros i Hi. lia.
  - destruct (push_spec this value Hwf) as
      (this1 & Hpush & Hwf1 & Hl1 & Hp1 & Hc1 & Hkeep1 & Hnew1).
    { intros Hfull. apply Hpol. cbn [List.length]. lia. }
    destruct (IH this1 Hwf1) as (this' & Hall & Hwf' & Hl' & Hkeep' & Hnew').
    { intros c Hc. rewrite Hp1. apply Hpol. cbn [List.length]. lia. }
    exists this'. cbn [push_all]. rewrite Hpush. cbn [bind].
    rewrite Hall. cbn [bind].
    destruct Hwf as [Hl Hc]. cbn [List.length].
    split.
    { rewrite Nat2Z.inj_succ, (seqZ_cons (length this + 1)), Z.pred_succ by lia.
      replace (Z.succ (length this + 1)) with (length this1 + 1) by lia.
      reflexivity. }
    split; [exact Hwf'|]. split; [lia|]. split.
    + intros i Hi. rewrite Hkeep' by lia. apply Hkeep1. exact Hi.
    + intros i Hi. destruct (decide (i = 0)) as [->|Hne].
      * rewrite Z.add_0_r, Hkeep' by lia. exact Hnew1.
      * replace (length this + i) with (length this1 + (i - 1)) by lia.
        rewrite Hnew' by lia.
        replace (Z.to_nat i) with (S (Z.to_nat (i - 1))) by lia.
        reflexivity.
Qed.

Lemma pop_push_id this :
  wf this -> 0 < length this ->
  exists x,
    pop this = Returned (Some x) (with_length this (length this - 1)) /\
    push (with_length this (length this - 1)) x
      = Returned (length this) this.
Proof.
  intros [Hl Hc] Hpos.
  destruct (load_in_range (array this) (length this - 1)) as [x Hx]; [lia|].
  exists x. split.
  - unfold pop. destruct (Z.eqb_spec (length this) 0); [lia|].
    simpl. rewrite Hx. reflexivity.
  - unfold push. rewrite Z.geb_leb. simpl.
    destruct (Z.leb_spec (capacity this) (length this - 1)); [lia|].
    simpl. rewrite (store_load_id _ _ _ Hx).
    replace (length this - 1 + 1) with (length this) by lia.
    destruct this; reflexivity.
Qed.

(** ** The claims that hold of every buffer *)

(** C6. Growth preserves the prefix: whenever a call reallocates (a [set]
    from the capacity on, a [grow], or a [push] on a full buffer) and
    returns, every slot below the length held before the call reads as
    before, in the array and through [get]. *)
Theorem reallocation_preserves_prefix fuel (c : call V) this this' i :
  wf this ->
  reallocates c this ->
  perform fuel c this = Returned tt this' ->
  0 <= i < length this ->
  load (array this') i = load (array this) i /\ get this' i = get this i.
Proof.
  intros [Hl Hc] Hre Hrun Hi.
  assert (load (array this') i = load (array this) i /\
          length this <= length this') as [Hload Hlen].
  { destruct c as [index|index value| |value|]; simpl in Hre, Hrun;
      try contradiction.
    - destruct (set fuel this index value) as [r this1| |] eqn:Hset;
        simpl in Hrun; try discriminate.
      injection Hrun as ->.
      apply set_from_capacity_Returned in Hset
        as (this1 & this2 & Hloop & Hrealloc & Hup); [|exact Hre].
      apply grow_loop_Returned in Hloop as (Heq & Hidx & _).
      rewrite update_value_eq in Hup. cbv zeta in Hup.
      injection Hup as _ <-. simpl.
      pose proof (reallocate_fields _ _ Hrealloc) as (Hl2 & _).
      rewrite load_store_ne by lia.
      rewrite (reallocate_prefix this1 this2 i Hrealloc);
        rewrite Heq; simpl; try lia.
      split; [reflexivity|]. rewrite Heq in Hl2. simpl in Hl2. lia.
    - destruct (grow this) as [r this1| |] eqn:Hgrow;
        simpl in Hrun; try discriminate.
      injection Hrun as ->.
      apply grow_Returned in Hgrow as (_ & Hinc & Hrealloc).
      pose proof (reallocate_fields _ _ Hrealloc) as (Hl2 & _).
      rewrite (reallocate_prefix _ _ i Hrealloc); simpl in *; try lia.
      split; [reflexivity | lia].
    - unfold push in Hrun. rewrite Z.geb_leb in Hrun.
      destruct (Z.leb_spec (capacity this) (length this)); [|lia].
      destruct (grow this) as [r this1| |] eqn:Hgrow;
        simpl in Hrun; try discriminate.
      injection Hrun as <-. simpl.
      apply grow_Returned in Hgrow as (_ & Hinc & Hrealloc).
      pose proof (reallocate_fields _ _ Hrealloc) as (Hl2 & _).
      simpl in Hl2. rewrite load_store_ne by lia.
      rewrite (reallocate_prefix _ _ i Hrealloc); simpl; try lia.
      split; [reflexivity | lia]. }
  split; [exact Hload|].
  rewrite !get_upto_length by lia. exact Hload.
Qed.

(** C7. A call [set(index, value)] with [index >= 0] that returns leaves
    [length = max(old length, index + 1)], makes [get(index)] return
    [value], and returns the buffer itself. *)
Theorem set_Returned_spec fuel this index value r this' :
  0 <= index ->
  capacity this <= Z.of_nat (List.length (array this)) ->
  set fuel this index value = Returned r this' ->
  length this' = Z.max (length this) (index + 1) /\
  get this' index = Some value /\
  r = this'.
Proof.
  intros Hi Hca Hset.
  assert (exists this2,
            length this2 = length this /\
            index < Z.of_nat (List.length (array this2)) /\
            update_value this2 index value = Returned r this')
    as (this2 & Hl2 & Ha2 & Hup).
  { destruct (Z.le_gt_cases (capacity this) index) as [Hge|Hlt].
    - apply set_from_capacity_Returned in Hset
        as (this1 & this2 & Hloop & Hrealloc & Hup); [|exact Hge].
      apply grow_loop_Returned in Hloop as (Heq & Hidx & _).
      apply reallocate_fields in Hrealloc as (Hl2 & _ & _ & Ha2).
      exists this2. rewrite Hl2, Ha2, Heq. simpl. auto.
    - rewrite set_below_capacity in Hset by exact Hlt.
      exists this. split; [reflexivity|]. split; [lia | exact Hset]. }
  rewrite update_value_eq in Hup. cbv zeta in Hup.
  injection Hup as <- <-. simpl. rewrite Hl2.
  split; [reflexivity|]. split; [|reflexivity].
  rewrite get_upto_length by (simpl; lia). simpl.
  apply load_store_eq. lia.
Qed.


(** C9. On a buffer with [length > 0], [pop()] followed by [push(x)] of the
    popped value [x] gives back the same length and the same values at all
    indices below it. *)
Theorem pop_then_push_restores this :
  wf this ->
  0 < length this ->
  exists x this1 this2,
    pop this = Returned (Some x) this1 /\
    push this1 x = Returned (length this) this2 /\
    length this2 = length this /\
    forall i, 0 <= i < length this -> get this2 i = get this i.
Proof.
  intros Hwf Hpos.
  destruct (pop_push_id this Hwf Hpos) as (x & Hpop & Hpush).
  exists x, (with_length this (length this - 1)), this. auto.
Qed.

(** C10. A call [set(index, value)] with [0 <= index < capacity] does not
    reallocate: it returns after the write alone, the capacity and the size
    of the array are unchanged, the array is the old one with the slot at
    [index] written, and every other slot reads as before. *)
Theorem set_below_capacity_in_place fuel this index value :
  0 <= index < capacity this ->
  exists this',
    set fuel this index value = Returned this' this' /\
    set fuel this index value = update_value this index value /\
    capacity this' = capacity this /\
    policy this' = policy this /\
    array this' = store (array this) index value /\
    List.length (array this') = List.length (array this) /\
    (forall j, j <> index -> load (array this') j = load (array this) j) /\
    length this' = Z.max (length this) (index + 1).
Proof.
  intros [Hi Hlt]. rewrite set_below_capacity by exact Hlt.
  rewrite update_value_eq. cbv zeta. eexists. split; [reflexivity|]. simpl.
  repeat split.
  - apply length_store.
  - intros j Hj. apply load_store_ne. congruence.
Qed.

(** ** Where the code departs from the claims *)

(** [get] at [index = length]: on a buffer with spare capacity the test
    [this.length < index] lets the read through to the slot. *)
Lemma get_at_length_spare this :
  wf this -> length this < capacity this ->
  exists x, get this (length this) = Some x.
Proof.
  intros [Hl Hc] Hspare. rewrite get_upto_length by lia.
  apply load_in_range. lia.
Qed.

(** [get] at [index = length] on a full buffer is a read past the array. *)
Lemma get_at_length_full this :
  wf this -> length this = capacity this -> get this (length this) = None.
Proof.
  intros [Hl Hc] Hfull. rewrite get_upto_length by lia.
  apply load_out_of_range. lia.
Qed.

(** C2. On a buffer built with capacity 0 and the default policy,
    [set(0, value)] does not succeed: the policy answers 0 for 0 and the
    sanity check of [set] throws, whatever the fuel. *)
Theorem set_on_zero_capacity_throws value :
  exists this0 : t V,
    new (inl 0) = inr this0 /\
    capacity this0 = 0 /\
    policy this0 = DEFAULT_GROWING_POLICY /\
    forall fuel,
      set (S fuel) this0 0 value = Thrown PolicyViolation_set this0 /\
      returned (set fuel this0 0 value) = false.
Proof.
  exists (Build 0 0 DEFAULT_GROWING_POLICY []).
  split; [apply (new_number 0); pose proof max_length_pos; lia|].
  split; [reflexivity|].
  split; [reflexivity|]. intros fuel. split; [reflexivity|].
  destruct fuel; reflexivity.
Qed.

Lemma grow_loop_capped_doubling fuel : forall this,
  policy this = capped_doubling ->
  1 <= capacity this <= 4 ->
  grow_loop fuel 1 10 this = OutOfFuel.
Proof.
  induction fuel as [|fuel IH]; intros this Hp Hc; simpl;
    rewrite Z.geb_leb; destruct (Z.leb_spec (capacity this) 10); try lia;
    [reflexivity|].
  rewrite Hp. unfold capped_doubling at 1.
  destruct (Z.leb_spec (Z.min (2 * capacity this) 4) 1); [lia|].
  apply IH; simpl; [exact Hp | unfold capped_doubling; lia].
Qed.

(** C3. With a policy that doubles up to 4 and then stalls, [set(10, value)]
    on a buffer of capacity 1 never ends: the sanity check compares with the
    capacity read before the loop, which every later answer exceeds, so no
    amount of fuel makes the call return or throw. *)
Theorem set_loops_on_stalling_policy value :
  exists this0 : t V,
    new (options 1 capped_doubling) = inr this0 /\
    capped_doubling 4 = 4 /\
    forall fuel, set fuel this0 10 value = OutOfFuel.
Proof.
  exists (Build 0 1 capped_doubling [fresh_slot]).
  split; [apply (new_options 1); pose proof max_length_pos; lia|].
  split; [reflexivity|].
  intros fuel. unfold set. simpl.
  rewrite grow_loop_capped_doubling; simpl; [reflexivity | reflexivity | lia].
Qed.

End DynamicArrayFacts.

(** ** Runs on an [Int32Array] *)

#[local] Existing Instance Int32Array.

(** The buffers of the examples are what the calls build. *)
Example fresh_1_new : new (inl 1) = inr fresh_1.
Proof. reflexivity. Qed.

Example fresh_2_new : new (inl 2) = inr fresh_2.
Proof. reflexivity. Qed.

Example full_2_pushed : push_all fresh_2 [10; 20] = Returned [1; 2] full_2.
Proof. reflexivity. Qed.

(** The third [push] grows the buffer to [ceil(2 * 1.5) = 3] slots. *)
Example full_3_pushed : push full_2 30 = Returned 3 full_3.
Proof. reflexivity. Qed.

Example full_3_get :
  (get full_3 0, get full_3 1, get full_3 2) = (Some 10, Some 20, Some 30).
Proof. reflexivity. Qed.

Example sparse_8_set : set 4 fresh_1 5 7 = Returned sparse_8 sparse_8.
Proof. reflexivity. Qed.

Example regrown_5_set : set 2 popped_2 3 7 = Returned regrown_5 regrown_5.
Proof. reflexivity. Qed.

Example same_size_1_new : new (options 1 same_size) = inr same_size_1.
Proof. reflexivity. Qed.

Example too_large_1_new : new (options 1 too_large) = inr too_large_1.
Proof. reflexivity. Qed.

Example too_large_1_pushed : push too_large_1 7 = Returned 1 too_large_1_full.
Proof. reflexivity. Qed.

(** The second [push] asks for [2^53] slots: the allocation is refused, after
    [this.capacity] has been assigned. *)
Example too_large_1_refused :
  push too_large_1_full 8 = Thrown RangeError too_large_1_failed.
Proof. reflexivity. Qed.

(** C1. [get(index)] with [index = length] returns a stored value instead of
    [undefined]: after [set(0, 7)] and [pop()] on a buffer of capacity 2 the
    length is 0 and [get(0)] is still 7. *)
Theorem get_at_length_returns_slot :
  exists this0 this1 this2 : t Z,
    new (inl 2) = inr this0 /\
    set 0 this0 0 7 = Returned this1 this1 /\
    pop this1 = Returned (Some 7) this2 /\
    length this2 = 0 /\
    get this2 (length this2) = Some 7.
Proof.
  exists (Build 0 2 DEFAULT_GROWING_POLICY [0; 0]),
         (Build 1 2 DEFAULT_GROWING_POLICY [7; 0]),
         (Build 0 2 DEFAULT_GROWING_POLICY [7; 0]).
  repeat split; reflexivity.
Qed.

(** C4. A call that fails the sanity check has already assigned
    [this.capacity]: with a policy answering [c - 1], [grow()] and
    [set(3, 7)] on a buffer of capacity 3 throw and leave [capacity = 2]
    on an array of 3 slots. *)
Theorem failed_call_overwrites_capacity :
  exists this0 this' : t Z,
    new (options 3 shrinking) = inr this0 /\
    capacity this0 = 3 /\
    grow this0 = Thrown PolicyViolation_grow this' /\
    set 1 this0 3 7 = Thrown PolicyViolation_set this' /\
    capacity this' = 2 /\
    length this' = length this0 /\
    array this' = array this0 /\
    List.length (array this') = 3%nat.
Proof.
  exists (Build 0 3 shrinking [0; 0; 0]), (Build 0 2 shrinking [0; 0; 0]).
  repeat split; reflexivity.
Qed.

(** C5. After a call that throws, the data model is broken: with a policy
    answering 0, two [push] calls on a buffer of capacity 1 (the second
    throws) leave [length = 1], [capacity = 0] and an array of 1 slot. *)
Theorem run_breaks_data_model :
  exists this0 this' : t Z,
    new (options 1 no_room) = inr this0 /\
    run 0 [Push 7; Push 8] this0 = Some this' /\
    push_all this0 [7; 8] = Thrown PolicyViolation_grow this' /\
    length this' = 1 /\
    capacity this' = 0 /\
    List.length (array this') = 1%nat /\
    ~ wf this'.
Proof.
  exists (Build 0 1 no_room [0]), (Build 1 0 no_room [7]).
  repeat split; try reflexivity.
  unfold wf. simpl. lia.
Qed.


(** ** The general claims at work *)

Ltac default_policy :=
  simpl; intros k Hk; rewrite DEFAULT_GROWING_POLICY_div;
  cbv beta iota delta [max_length Int32Array];
  Z.div_mod_to_equations; lia.

Ltac concrete_wf := unfold wf; simpl; lia.

Lemma reallocation_preserves_prefix_witness :
  wf full_2 /\
  reallocates (Push 30) full_2 /\
  perform 0 (Push 30) full_2 = Returned tt full_3 /\
  0 <= 1 < length full_2 /\
  load (array full_3) 1 = load (array full_2) 1 /\
  get full_3 1 = get full_2 1.
Proof.
  assert (wf full_2) as Hwf by (unfold wf, full_2; simpl; lia).
  assert (reallocates (Push 30) full_2) as Hre by (simpl; lia).
  assert (perform 0 (Push 30) full_2 = Returned tt full_3) as Hrun
    by reflexivity.
  assert (0 <= 1 < length full_2) as Hi by (simpl; lia).
  repeat (split; [assumption|]).
  exact (reallocation_preserves_prefix 0 (Push 30) full_2 full_3 1
           Hwf Hre Hrun Hi).
Defined.

Lemma set_Returned_spec_witness :
  new (inl 1) = inr fresh_1 /\
  0 <= 5 /\
  capacity fresh_1 <= Z.of_nat (List.length (array fresh_1)) /\
  set 4 fresh_1 5 7 = Returned sparse_8 sparse_8 /\
  length sparse_8 = 6 /\
  get sparse_8 5 = Some 7 /\
  sparse_8 = sparse_8.
Proof.
  assert (0 <= 5) as Hi by lia.
  assert (capacity fresh_1 <= Z.of_nat (List.length (array fresh_1))) as Hca
    by (simpl; lia).
  assert (set 4 fresh_1 5 7 = Returned sparse_8 sparse_8) as Hset
    by reflexivity.
  split; [reflexivity|]. repeat (split; [assumption|]).
  exact (set_Returned_spec 4 fresh_1 5 7 sparse_8 sparse_8 Hi Hca Hset).
Defined.


Lemma pop_then_push_restores_witness :
  wf full_3 /\
  0 < length full_3 /\
  exists x this1 this2,
    pop full_3 = Returned (Some x) this1 /\
    push this1 x = Returned 3 this2 /\
    length this2 = 3 /\
    forall i, 0 <= i < 3 -> get this2 i = get full_3 i.
Proof.
  assert (wf full_3) as Hwf by (unfold wf, full_3; simpl; lia).
  assert (0 < length full_3) as Hpos by (simpl; lia).
  repeat (split; [assumption|]).
  exact (pop_then_push_restores full_3 Hwf Hpos).
Defined.

Lemma set_below_capacity_in_place_witness :
  0 <= 1 < capacity fresh_2 /\
  exists this',
    set 0 fresh_2 1 7 = Returned this' this' /\
    set 0 fresh_2 1 7 = update_value fresh_2 1 7 /\
    capacity this' = 2 /\
    policy this' = DEFAULT_GROWING_POLICY /\
    array this' = [0; 7] /\
    List.length (array this') = 2%nat /\
    (forall j, j <> 1 -> load (array this') j = load [0; 0] j) /\
    length this' = 2.
Proof.
  assert (0 <= 1 < capacity fresh_2) as Hi by (simpl; lia).
  split; [assumption|].
  exact (set_below_capacity_in_place 0 fresh_2 1 7 Hi).
Defined.

(** * Further properties of the code *)

(** ** The default policy and the constructor *)

(** X1. On a capacity [c >= 0] the default policy answers between [c] and
    [2 * c], and answers [c] itself only for [c = 0]. *)
Theorem DEFAULT_GROWING_POLICY_bounds c :
  0 <= c ->
  c <= DEFAULT_GROWING_POLICY c <= 2 * c /\
  (DEFAULT_GROWING_POLICY c = c <-> c = 0).
Proof.
  intros Hc. rewrite DEFAULT_GROWING_POLICY_div.
  Z.div_mod_to_equations. lia.
Qed.

Section MoreDynamicArrayFacts.
Context {V : Type} `{AC : ArrayClass V}.
Implicit Types (this : t V) (index c : Z) (value : V) (fuel : nat).

Lemma load_replicate (n : nat) (x : V) j :
  0 <= j < Z.of_nat n -> load (replicate n x) j = Some x.
Proof.
  intros Hj. unfold load. destruct (Z.ltb_spec j 0); [lia|].
  apply lookup_replicate_2. lia.
Qed.

(** The copy loop leaves the slots from [l] on as they were allocated. *)
Lemma load_transfer_beyond (oldArray a : list V) l j :
  0 <= l <= j -> load (transfer oldArray a l) j = load a j.
Proof.
  intros Hj. unfold transfer. rewrite load_transfer_from by lia.
  case_decide; [lia | reflexivity].
Qed.

Lemma reallocate_fresh this this' j :
  reallocate this = Returned tt this' ->
  0 <= length this <= j -> j < capacity this ->
  load (array this') j = Some fresh_slot.
Proof.
  intros [Hc ->]%reallocate_Returned Hj Hlt. simpl.
  rewrite load_transfer_beyond by lia. apply load_replicate. lia.
Qed.

(** X2. A buffer that the constructor returns is empty, meets the data
    model, and every one of its slots holds the fresh value of the array
    class. *)
Theorem new_wf_empty o this :
  new o = inr this ->
  length this = 0 /\ wf this /\
  forall j, 0 <= j < capacity this -> load (array this) j = Some fresh_slot.
Proof.
  intros Hnew. pose proof (wf_new _ _ Hnew) as Hwf.
  apply new_inr in Hnew as (Hl & Hc & Ha).
  split; [exact Hl|]. split; [exact Hwf|].
  intros j Hj. rewrite Ha. apply load_replicate. lia.
Qed.

(** ** [get] *)

(** X3. On a buffer meeting the data model, [get(index)] with [index >= 0]
    returns a value exactly when [index <= length] and [index < capacity]:
    the slot at [length] is readable as long as it is allocated. *)
Theorem get_is_Some_iff this index :
  wf this -> 0 <= index ->
  (is_Some (get this index) <-> index <= length this /\ index < capacity this).
Proof.
  intros [Hl Hc] Hi. unfold get.
  destruct (Z.ltb_spec (length this) index) as [Hlt|Hge].
  - split; [intros [x Hx]; discriminate | lia].
  - split.
    + intros [x Hx%load_Some_lt]. lia.
    + intros [_ Hcap]. destruct (load_in_range (array this) index) as [x ->];
        [lia | eauto].
Qed.

(** ** [set] *)

(** What a returning [set] leaves in the array: the write on top of a block
    [a] that is the old one below the capacity, and a new one with the old
    prefix and fresh slots from the capacity on. *)
Lemma set_Returned_array fuel this index value r this' :
  wf this -> 0 <= index ->
  set fuel this index value = Returned r this' ->
  exists a,
    array this' = store a index value /\
    length this' = Z.max (length this) (index + 1) /\
    Z.of_nat (List.length a) = capacity this' /\
    index < capacity this' /\
    capacity this <= capacity this' /\
    (forall j, 0 <= j < length this -> load a j = load (array this) j) /\
    (index < capacity this -> a = array this) /\
    (capacity this <= index ->
     forall j, length this <= j < capacity this' ->
               load a j = Some fresh_slot).
Proof.
  intros [Hl Hc] Hi Hset.
  destruct (Z.le_gt_cases (capacity this) index) as [Hge|Hlt].
  - apply set_from_capacity_Returned in Hset
      as (this1 & this2 & Hloop & Hrealloc & Hup); [|exact Hge].
    apply grow_loop_Returned in Hloop as (Heq & Hidx & _).
    pose proof (reallocate_fields _ _ Hrealloc) as (Hl2 & Hc2 & _ & Ha2).
    rewrite update_value_eq in Hup. cbv zeta in Hup. injection Hup as _ <-.
    exists (array this2). simpl.
    assert (length this1 = length this) as Hl1 by (rewrite Heq; reflexivity).
    assert (array this1 = array this) as Ha1 by (rewrite Heq; reflexivity).
    split; [reflexivity|]. split; [congruence|]. split; [lia|].
    split; [lia|]. split; [lia|]. split; [|split; [lia|]].
    + intros j Hj. rewrite <- Ha1.
      apply (reallocate_prefix this1 this2 j Hrealloc); rewrite ?Ha1; lia.
    + intros _ j Hj.
      apply (reallocate_fresh this1 this2 j Hrealloc); lia.
  - rewrite set_below_capacity, update_value_eq in Hset by exact Hlt.
    cbv zeta in Hset. injection Hset as _ <-. exists (array this). simpl.
    repeat split; try lia; try reflexivity.
Qed.

(** X4. With a capacity that is not negative and a policy that, on every
    capacity from the current one up to [index], answers more than it is
    given and no more than the array class allocates, [set] returns once the
    loop has [index - capacity + 1] turns of fuel. *)
Theorem set_terminates fuel this index value :
  0 <= capacity this ->
  (forall c, capacity this <= c <= index -> c < policy this c <= max_length) ->
  (Z.to_nat (index - capacity this + 1) <= fuel)%nat ->
  exists this',
    set fuel this index value = Returned this' this' /\
    forall fuel', (fuel <= fuel')%nat ->
                  set fuel' this index value = Returned this' this'.
Proof.
  intros Hc Hpol Hfuel.
  destruct (set_returns fuel this index value Hc Hpol Hfuel) as [this' Hset].
  exists this'. split; [exact Hset|].
  intros fuel' Hle. rewrite (set_fuel_mono fuel fuel'); [exact Hset| |exact Hle].
  rewrite Hset. discriminate.
Qed.

(** X5. A [set] that returns changes no other slot in use: [get(j)] is as
    before for every [j] below the old length other than [index]. *)
Theorem set_keeps_other_slots fuel this index value r this' j :
  wf this -> 0 <= index ->
  set fuel this index value = Returned r this' ->
  0 <= j < length this -> j <> index ->
  get this' j = get this j.
Proof.
  intros Hwf Hi Hset Hj Hne.
  destruct (set_Returned_array _ _ _ _ _ _ Hwf Hi Hset)
    as (a & Ha & Hl' & _ & _ & _ & Hkeep & _).
  rewrite !get_upto_length by lia.
  rewrite Ha, load_store_ne by congruence. apply Hkeep. exact Hj.
Qed.

(** X6. A [set] from the capacity on fills the gap with fresh slots: in the
    new block every slot from the old length on, other than the one written,
    holds the fresh value, whatever the old block held there. *)
Theorem set_from_capacity_fresh_gap fuel this index value r this' j :
  wf this -> capacity this <= index ->
  set fuel this index value = Returned r this' ->
  length this <= j < capacity this' -> j <> index ->
  load (array this') j = Some fresh_slot.
Proof.
  intros Hwf Hge Hset Hj Hne.
  assert (0 <= index) as Hi by (destruct Hwf; lia).
  destruct (set_Returned_array _ _ _ _ _ _ Hwf Hi Hset)
    as (a & Ha & _ & _ & _ & _ & _ & _ & Hfresh).
  rewrite Ha, load_store_ne by congruence. apply Hfresh; assumption.
Qed.

(** The loop of [set] walks the capacities [policy^m(capacity)] and stops at
    the first one above [index]. *)
Lemma grow_loop_iterates fuel c0 index : forall this this',
  grow_loop fuel c0 index this = Returned tt this' ->
  exists n : nat,
    (n <= fuel)%nat /\
    capacity this' = Nat.iter n (policy this) (capacity this) /\
    forall m : nat, (m < n)%nat ->
                    Nat.iter m (policy this) (capacity this) <= index.
Proof.
  induction fuel as [|fuel IH]; intros this this'; simpl;
    rewrite Z.geb_leb; destruct (Z.leb_spec (capacity this) index) as [Hge|Hlt];
    try discriminate.
  - intros [= <-]. exists 0%nat. split; [lia|]. split; [reflexivity|]. lia.
  - destruct (policy this (capacity this) <=? c0); [discriminate|].
    intros (n & Hn & Hcap & Hbelow)%IH. simpl in Hcap, Hbelow.
    exists (S n). split; [lia|]. split.
    + rewrite Nat.iter_succ_r. exact Hcap.
    + intros [|m] Hm; [exact Hge|].
      rewrite Nat.iter_succ_r. apply Hbelow. lia.
  - intros [= <-]. exists 0%nat. split; [lia|]. split; [reflexivity|]. lia.
Qed.

(** X7. A [set] from the capacity on that returns has applied the policy
    [n >= 1] times in a row and stopped at the first answer above [index]:
    the new capacity is [policy^n(capacity)], and every earlier one is at
    most [index]. *)
Theorem set_capacity_first_iterate fuel this index value r this' :
  capacity this <= index ->
  set fuel this index value = Returned r this' ->
  exists n : nat,
    (0 < n <= fuel)%nat /\
    capacity this' = Nat.iter n (policy this) (capacity this) /\
    index < capacity this' /\
    forall m : nat, (m < n)%nat ->
                    Nat.iter m (policy this) (capacity this) <= index.
Proof.
  intros Hge Hset.
  apply set_from_capacity_Returned in Hset
    as (this1 & this2 & Hloop & Hrealloc & Hup); [|exact Hge].
  pose proof (grow_loop_Returned _ _ _ _ _ Hloop) as (_ & Hidx & _).
  apply grow_loop_iterates in Hloop as (n & Hn & Hcap & Hbelow).
  apply reallocate_fields in Hrealloc as (_ & Hc2 & _).
  rewrite update_value_eq in Hup. cbv zeta in Hup. injection Hup as _ <-.
  simpl. exists n. rewrite Hc2.
  split; [|split; [exact Hcap|split; [exact Hidx | exact Hbelow]]].
  split; [|exact Hn].
  destruct n as [|n]; [|lia]. simpl in Hcap. lia.
Qed.

(** X8. [push(value)] is [set(length, value)]: on a buffer meeting the data
    model, a [push] that returns leaves the object that [set] at the current
    length leaves, and returns its length. *)
Theorem push_is_set_at_length fuel this value r this' :
  wf this ->
  push this value = Returned r this' ->
  set (S fuel) this (length this) value = Returned this' this' /\
  r = length this'.
Proof.
  intros [Hl Hc]. unfold push. rewrite Z.geb_leb.
  destruct (Z.leb_spec (capacity this) (length this)) as [Hfull|Hroom].
  - assert (length this = capacity this) as Hlc by lia.
    destruct (grow this) as [r1 this1| |] eqn:Hgrow; simpl; try discriminate.
    intros [= <- <-].
    apply grow_Returned in Hgrow as (_ & Hinc & Hrealloc).
    pose proof (reallocate_fields _ _ Hrealloc) as (Hl1 & _).
    simpl in Hl1. split; [|reflexivity].
    unfold set. rewrite Hlc, Z.geb_leb.
    destruct (Z.leb_spec (capacity this) (capacity this)); [|lia].
    cbn [grow_loop]. rewrite Z.geb_leb.
    destruct (Z.leb_spec (capacity this) (capacity this)); [|lia].
    cbn [capacity with_capacity].
    destruct (Z.leb_spec (policy this (capacity this)) (capacity this)); [lia|].
    assert (grow_loop fuel (capacity this) (capacity this)
              (with_capacity this (policy this (capacity this)))
            = Returned tt (with_capacity this (policy this (capacity this))))
      as ->.
    { destruct fuel; simpl; rewrite Z.geb_leb;
        destruct (Z.leb_spec (policy this (capacity this)) (capacity this));
        try lia; reflexivity. }
    cbn [bind]. rewrite Hrealloc. cbn [bind].
    rewrite update_value_eq. cbv zeta.
    rewrite Hl1, Hlc, Z.max_r by lia.
    destruct this1; simpl in *. subst. reflexivity.
  - simpl. intros [= <- <-]. split; [|reflexivity].
    rewrite set_below_capacity, update_value_eq by lia. cbv zeta.
    rewrite Z.max_r by lia. reflexivity.
Qed.

(** ** [grow] *)

(** X9. On a buffer meeting the data model, [grow] assigns the answer of
    the policy to [capacity] and then: throws its policy error when the
    answer is not above the old capacity; throws a [RangeError] when the
    answer is above what the array class allocates; and otherwise returns,
    with the length and the slots below it kept, the slots from the length
    on fresh, and the data model kept. *)
Theorem grow_spec this :
  wf this ->
  let answer := policy this (capacity this) in
  if decide (answer <= capacity this)
  then grow this = Thrown PolicyViolation_grow (with_capacity this answer)
  else if decide (max_length < answer)
  then grow this = Thrown RangeError (with_capacity this answer)
  else exists this',
      grow this = Returned this' this' /\
      capacity this' = answer /\
      length this' = length this /\
      wf this' /\
      (forall j, 0 <= j < length this ->
                 load (array this') j = load (array this) j) /\
      (forall j, length this <= j < capacity this' ->
                 load (array this') j = Some fresh_slot).
Proof.
  intros Hwf answer. pose proof Hwf as [Hl Hc]. subst answer.
  case_decide as Hstall; [|case_decide as Hlarge].
  - unfold grow. cbn [capacity with_capacity].
    destruct (Z.leb_spec (policy this (capacity this)) (capacity this));
      [reflexivity | lia].
  - unfold grow, reallocate, new_array. cbn [capacity with_capacity].
    destruct (Z.leb_spec (policy this (capacity this)) (capacity this)); [lia|].
    destruct (Z.ltb_spec (policy this (capacity this)) 0); [lia|].
    destruct (Z.ltb_spec max_length (policy this (capacity this))); [|lia].
    reflexivity.
  - destruct (grow_returns this) as [this' Hgrow]; [lia | lia |].
    exists this'. split; [exact Hgrow|].
    pose proof (wf_grow _ _ _ Hwf Hgrow) as Hwf'.
    apply grow_Returned in Hgrow as (_ & _ & Hrealloc).
    pose proof (reallocate_fields _ _ Hrealloc) as (Hl' & Hc' & _).
    simpl in Hl', Hc'.
    split; [exact Hc'|]. split; [exact Hl'|]. split; [exact Hwf'|]. split.
    + intros j Hj. apply (reallocate_prefix _ _ j Hrealloc); simpl; lia.
    + intros j Hj. apply (reallocate_fresh _ _ j Hrealloc); simpl; lia.
Qed.

(** ** Calls that throw *)

(** X10. On a buffer meeting the data model, [get] and [pop] never throw.
    A call of [set], [grow] or [push] that throws leaves the length, the
    policy and the array as before, and has overwritten [capacity]: with a
    value not above the old one when it throws its policy error (that of
    [set] for [set], that of [grow] for [grow] and for [push], which then
    was on a full buffer), with a value above what the array class
    allocates when it throws a [RangeError]. *)
Theorem perform_Thrown_spec fuel (c : call V) this e this' :
  wf this -> nonneg_index c ->
  perform fuel c this = Thrown e this' ->
  this' = with_capacity this (capacity this') /\
  match c with
  | Set_ _ _ =>
      e = PolicyViolation_set /\ capacity this' <= capacity this \/
      e = RangeError /\ max_length < capacity this'
  | Grow =>
      e = PolicyViolation_grow /\ capacity this' <= capacity this \/
      e = RangeError /\ max_length < capacity this'
  | Push _ =>
      length this = capacity this /\
      (e = PolicyViolation_grow /\ capacity this' <= capacity this \/
       e = RangeError /\ max_length < capacity this')
  | Get _ | Pop => False
  end.
Proof.
  intros [Hl Hc] Hi Hrun.
  assert (forall e1 this1, grow this = Thrown e1 this1 ->
            this1 = with_capacity this (capacity this1) /\
            (e1 = PolicyViolation_grow /\ capacity this1 <= capacity this \/
             e1 = RangeError /\ max_length < capacity this1))
    as Hgrow_thrown.
  { intros e1 this1 (-> & Hcase)%grow_Thrown. simpl.
    split; [reflexivity|].
    destruct Hcase as [[-> Hle]|(-> & Hinc & Hrange)]; [auto|].
    right. split; [reflexivity | lia]. }
  destruct c as [index|index value| |value|]; simpl in Hrun.
  - discriminate.
  - destruct (set fuel this index value) as [r this1| |] eqn:Hset;
      simpl in Hrun; try discriminate.
    injection Hrun as <- <-.
    apply set_Thrown in Hset as (Heq & [[-> Hle]|(-> & _ & Hrange)]); auto.
  - destruct (grow this) as [r this1| |] eqn:Hgrow;
      simpl in Hrun; try discriminate.
    injection Hrun as <- <-. exact (Hgrow_thrown _ _ eq_refl).
  - unfold push in Hrun. rewrite Z.geb_leb in Hrun.
    destruct (Z.leb_spec (capacity this) (length this)); [|discriminate].
    destruct (grow this) as [r this1| |] eqn:Hgrow;
      simpl in Hrun; try discriminate.
    injection Hrun as <- <-.
    destruct (Hgrow_thrown _ _ eq_refl) as (Heq & Hcase).
    split; [exact Heq|]. split; [lia | exact Hcase].
  - unfold pop in Hrun. destruct (length this =? 0); discriminate.
Qed.

(** X11. With a policy that never answers less than the capacity (zero or
    more) it is given, as the default policy and the identity, a call that
    throws a policy error leaves the object exactly as it was; the only
    other throw is the [RangeError] of an allocation that the array class
    refuses, which leaves [capacity] above what it allocates. *)
Theorem perform_Thrown_unchanged fuel (c : call V) this e this' :
  wf this -> nonneg_index c ->
  (forall k, 0 <= k -> k <= policy this k) ->
  perform fuel c this = Thrown e this' ->
  e <> RangeError /\ this' = this \/
  e = RangeError /\ capacity this < capacity this' /\
  max_length < capacity this'.
Proof.
  intros [Hl Hc] Hi Hpol Hrun'.
  assert (forall e1 this1, grow this = Thrown e1 this1 ->
            e1 <> RangeError /\ this1 = this \/
            e1 = RangeError /\ capacity this < capacity this1 /\
            max_length < capacity this1) as Hgrow_thrown.
  { intros e1 this1 Hgrow.
    destruct (grow_Thrown_unchanged this e1 this1) as [[-> ->]|Hrange];
      [lia | exact Hpol | exact Hgrow | left | right; exact Hrange].
    split; [discriminate | reflexivity]. }
  destruct c as [index|index value| |value|]; simpl in Hrun'.
  - discriminate.
  - destruct (set fuel this index value) as [r this1|e1 this1|] eqn:Hset;
      simpl in Hrun'; try discriminate.
    injection Hrun' as <- <-.
    destruct (set_Thrown_unchanged fuel this index value e1 this1)
      as [[-> ->]|(-> & Hidx & Hrange)];
      [exact Hi | lia | exact Hpol | exact Hset | left | right].
    + split; [discriminate | reflexivity].
    + split; [reflexivity|]. lia.
  - destruct (grow this) as [r this1| |] eqn:Hgrow;
      simpl in Hrun'; try discriminate.
    injection Hrun' as <- <-. exact (Hgrow_thrown _ _ eq_refl).
  - unfold push in Hrun'.
    destruct (length this >=? capacity this); [|discriminate].
    destruct (grow this) as [r this1| |] eqn:Hgrow;
      simpl in Hrun'; try discriminate.
    injection Hrun' as <- <-. exact (Hgrow_thrown _ _ eq_refl).
  - unfold pop in Hrun'. destruct (length this =? 0); discriminate.
Qed.

(** ** Sequences of calls *)

Lemma perform_Returned_capacity fuel (c : call V) this this' :
  perform fuel c this = Returned tt this' ->
  capacity this <= capacity this' /\ policy this' = policy this.
Proof.
  destruct c as [index|index value| |value|]; simpl.
  - intros [= <-]. split; [lia | reflexivity].
  - destruct (set fuel this index value) as [r this0| |] eqn:Hset;
      simpl; try discriminate.
    intros [= <-]. split; [|exact (set_Returned_policy _ _ _ _ _ _ Hset)].
    destruct (Z.le_gt_cases (capacity this) index) as [Hge|Hlt].
    + apply set_from_capacity_Returned in Hset
        as (this1 & this2 & Hloop & Hrealloc & Hup); [|exact Hge].
      apply grow_loop_Returned in Hloop as (_ & Hidx & _).
      apply reallocate_fields in Hrealloc as (_ & Hc2 & _).
      rewrite update_value_eq in Hup. cbv zeta in Hup.
      injection Hup as _ <-. simpl. lia.
    + rewrite set_below_capacity, update_value_eq in Hset by exact Hlt.
      cbv zeta in Hset. injection Hset as _ <-. simpl. lia.
  - destruct (grow this) as [r this1| |] eqn:Hgrow; simpl; try discriminate.
    intros [= <-]. split; [|exact (grow_Returned_policy _ _ _ Hgrow)].
    apply grow_Returned in Hgrow as (_ & Hinc & Hrealloc).
    apply reallocate_fields in Hrealloc as (_ & Hc2 & _). simpl in Hc2. lia.
  - unfold push. destruct (length this >=? capacity this).
    + destruct (grow this) as [r this1| |] eqn:Hgrow; simpl; try discriminate.
      intros [= <-]. simpl.
      split; [|exact (grow_Returned_policy _ _ _ Hgrow)].
      apply grow_Returned in Hgrow as (_ & Hinc & Hrealloc).
      apply reallocate_fields in Hrealloc as (_ & Hc2 & _). simpl in Hc2. lia.
    + simpl. intros [= <-]. simpl. split; [lia | reflexivity].
  - unfold pop. destruct (length this =? 0); simpl; intros [= <-]; simpl;
      split; try lia; reflexivity.
Qed.

(** X12. There is no shrinking: along calls that return, whatever the
    buffer and the policy, the capacity never decreases and the policy is
    never replaced. *)
Theorem run_returning_capacity_mono fuel (cs : list (call V)) :
  forall this this',
  run_returning fuel cs this = Returned tt this' ->
  capacity this <= capacity this' /\ policy this' = policy this.
Proof.
  induction cs as [|c cs IH]; intros this this'; simpl.
  - intros [= <-]. split; [lia | reflexivity].
  - destruct (perform fuel c this) as [[] this1| |] eqn:Hc;
      simpl; try discriminate.
    intros [Hcap Hpol]%IH.
    apply perform_Returned_capacity in Hc as [Hcap1 Hpol1].
    split; [lia | congruence].
Qed.

Lemma grow_returns_or_RangeError this :
  capacity this < policy this (capacity this) ->
  exists this',
    grow this = Returned this' this' \/ grow this = Thrown RangeError this'.
Proof.
  intros Hinc. unfold grow. cbn [capacity with_capacity].
  destruct (Z.leb_spec (policy this (capacity this)) (capacity this)); [lia|].
  destruct (reallocate _) as [[] this2|e this2|] eqn:Hre; simpl.
  - eauto.
  - apply reallocate_Thrown in Hre as (-> & _). eauto.
  - destruct (reallocate_not_OutOfFuel _ Hre).
Qed.

Lemma perform_returns_or_RangeError fuel (c : call V) this :
  wf this -> nonneg_index c -> index_below fuel c ->
  (forall k, capacity this <= k -> k < policy this k) ->
  exists this',
    perform fuel c this = Returned tt this' \/
    perform fuel c this = Thrown RangeError this'.
Proof.
  intros Hwf Hi Hfuel Hpol. pose proof Hwf as [Hl Hc].
  destruct c as [index|index value| |value|]; simpl in *.
  - eauto.
  - destruct (set_returns_or_RangeError fuel this index value)
      as [this' [-> | ->]];
      [intros k Hk; apply Hpol; lia | lia | simpl; eauto | simpl; eauto].
  - destruct (grow_returns_or_RangeError this) as [this' [-> | ->]];
      [apply Hpol; lia | simpl; eauto | simpl; eauto].
  - unfold push. destruct (length this >=? capacity this).
    + destruct (grow_returns_or_RangeError this) as [this' [-> | ->]];
        [apply Hpol; lia | simpl; eauto | simpl; eauto].
    + simpl. eauto.
  - unfold pop. destruct (length this =? 0); simpl; eauto.
Qed.

(** X13. With a policy that increases every capacity from the current one
    on, no call fails the sanity check on the policy: every sequence of
    calls with indices that are not negative (and below the fuel given to
    the loop of [set]) either runs to its end with each call returning, the
    data model holding at the end, or stops at a [RangeError], the array
    class having refused an allocation. *)
Theorem run_returning_total fuel (cs : list (call V)) : forall this,
  wf this ->
  Forall nonneg_index cs ->
  Forall (index_below fuel) cs ->
  (forall k, capacity this <= k -> k < policy this k) ->
  exists this',
    run_returning fuel cs this = Returned tt this' /\ wf this' \/
    run_returning fuel cs this = Thrown RangeError this'.
Proof.
  induction cs as [|c cs IH]; intros this Hwf Hcs Hfuel Hpol; simpl.
  - eauto.
  - apply Forall_cons in Hcs as [Hc Hcs].
    apply Forall_cons in Hfuel as [Hf Hfuel].
    destruct (perform_returns_or_RangeError fuel c this Hwf Hc Hf Hpol)
      as [this1 [Hrun|Hrun]]; rewrite Hrun; simpl; [|eauto].
    pose proof (wf_perform _ _ _ _ Hwf Hc Hrun) as Hwf1.
    apply perform_Returned_capacity in Hrun as [Hcap1 Hpol1].
    apply IH; [exact Hwf1 | exact Hcs | exact Hfuel |].
    intros k Hk. rewrite Hpol1. apply Hpol. lia.
Qed.

(** A call that throws, on an object with a capacity that is not negative
    and a policy that never answers less than the capacity (zero or more) it
    is given: the policy is kept, and the object is as it was unless an
    allocation was refused. *)
Lemma perform_Thrown_never_less fuel (c : call V) this e this' :
  0 <= capacity this -> nonneg_index c ->
  (forall k, 0 <= k -> k <= policy this k) ->
  perform fuel c this = Thrown e this' ->
  policy this' = policy this /\
  (this' = this \/
   capacity this < capacity this' /\ max_length < capacity this').
Proof.
  intros Hc Hi Hpol Hrun.
  assert (forall e1 this1, grow this = Thrown e1 this1 ->
            policy this1 = policy this /\
            (this1 = this \/
             capacity this < capacity this1 /\ max_length < capacity this1))
    as Hgrow_thrown.
  { intros e1 this1 Hgrow.
    pose proof (grow_Thrown _ _ _ Hgrow) as [Heq _].
    split; [rewrite Heq; reflexivity|].
    destruct (grow_Thrown_unchanged this e1 this1 Hc Hpol Hgrow)
      as [[_ ->]|(_ & Hrange)]; auto. }
  destruct c as [index|index value| |value|]; simpl in Hrun.
  - discriminate.
  - destruct (set fuel this index value) as [r this1|e1 this1|] eqn:Hset;
      simpl in Hrun; try discriminate.
    injection Hrun as <- <-.
    pose proof (set_Thrown _ _ _ _ _ _ Hi Hset) as [Heq _].
    split; [rewrite Heq; reflexivity|].
    destruct (set_Thrown_unchanged fuel this index value e1 this1
                Hi Hc Hpol Hset) as [[_ ->]|(_ & Hidx & Hrange)];
      [auto | right; split; [lia | exact Hrange]].
  - destruct (grow this) as [r this1|e1 this1|] eqn:Hgrow;
      simpl in Hrun; try discriminate.
    injection Hrun as <- <-. exact (Hgrow_thrown _ _ eq_refl).
  - unfold push in Hrun.
    destruct (length this >=? capacity this); [|discriminate].
    destruct (grow this) as [r this1|e1 this1|] eqn:Hgrow;
      simpl in Hrun; try discriminate.
    injection Hrun as <- <-. exact (Hgrow_thrown _ _ eq_refl).
  - unfold pop in Hrun. destruct (length this =? 0); discriminate.
Qed.

(** One call, returning or throwing, keeps this: the data model holds, or
    [capacity] is above what the array class allocates. *)
Lemma wf_or_refused_after_perform fuel (c : call V) this this' :
  wf this \/ 0 <= capacity this /\ max_length < capacity this ->
  nonneg_index c ->
  (forall k, 0 <= k -> k <= policy this k) ->
  after (perform fuel c this) = Some this' ->
  (wf this' \/ 0 <= capacity this' /\ max_length < capacity this') /\
  policy this' = policy this.
Proof.
  intros Hinv Hi Hpol Hafter.
  assert (0 <= capacity this) as Hc
    by (destruct Hinv as [[Hl Hc]|[Hc _]]; lia).
  destruct (perform fuel c this) as [[] this1|e this1|] eqn:Hrun;
    simpl in Hafter; try discriminate; injection Hafter as ->.
  - pose proof (perform_Returned_capacity _ _ _ _ Hrun) as [Hcap Hp].
    split; [|exact Hp].
    destruct Hinv as [Hwf|[_ Hlarge]].
    + left. exact (wf_perform _ _ _ _ Hwf Hi Hrun).
    + right. lia.
  - destruct (perform_Thrown_never_less _ _ _ _ _ Hc Hi Hpol Hrun)
      as [Hp [->|[Hcap Hlarge]]].
    + split; [exact Hinv | reflexivity].
    + split; [right; lia | exact Hp].
Qed.

(** X19. With a policy that never answers less than the capacity (zero or
    more) it is given, after any sequence of calls with indices that are not
    negative, the throwing ones included, the data model holds, unless the
    array class refused an allocation: then [capacity] is left above what it
    allocates. *)
Theorem wf_run fuel (cs : list (call V)) : forall this this',
  wf this -> Forall nonneg_index cs ->
  (forall k, 0 <= k -> k <= policy this k) ->
  run fuel cs this = Some this' ->
  wf this' \/ max_length < capacity this'.
Proof.
  assert (forall this this',
            wf this \/ 0 <= capacity this /\ max_length < capacity this ->
            Forall nonneg_index cs ->
            (forall k, 0 <= k -> k <= policy this k) ->
            run fuel cs this = Some this' ->
            wf this' \/ 0 <= capacity this' /\ max_length < capacity this')
    as Hgen.
  { induction cs as [|c cs IH]; intros this this' Hinv Hcs Hpol; simpl.
    - intros [= <-]. exact Hinv.
    - apply Forall_cons in Hcs as [Hc Hcs].
      destruct (after (perform fuel c this)) as [this1|] eqn:Hafter;
        [|discriminate].
      destruct (wf_or_refused_after_perform _ _ _ _ Hinv Hc Hpol Hafter)
        as [Hinv1 Hp1].
      apply IH; [exact Hinv1 | exact Hcs |].
      intros k. rewrite Hp1. apply Hpol. }
  intros this this' Hwf Hcs Hpol Hrun.
  destruct (Hgen this this' (or_introl Hwf) Hcs Hpol Hrun) as [Hwf'|[_ Hlarge]];
    auto.
Qed.

(** ** [push], [pop] and [inspect] *)

(** X14. [push(value)] followed by [pop()] gives [value] back and restores
    the length and the values below it, on a buffer meeting the data model
    whose policy, when the buffer is full, increases the capacity to a size
    that the array class allocates. *)
Theorem push_then_pop_restores this value :
  wf this ->
  (capacity this <= length this ->
   capacity this < policy this (capacity this) <= max_length) ->
  exists this1 this2,
    push this value = Returned (length this + 1) this1 /\
    pop this1 = Returned (Some value) this2 /\
    length this2 = length this /\
    forall i, 0 <= i < length this -> get this2 i = get this i.
Proof.
  intros Hwf Hpol. pose proof Hwf as [Hl Hc].
  destruct (push_spec this value Hwf Hpol)
    as (this1 & Hpush & _ & Hl1 & _ & _ & Hkeep & Hnew).
  exists this1, (with_length this1 (length this1 - 1)).
  split; [exact Hpush|]. split.
  - unfold pop. destruct (Z.eqb_spec (length this1) 0); [lia|].
    simpl. replace (length this1 - 1) with (length this) by lia.
    rewrite Hnew. reflexivity.
  - simpl. split; [lia|]. intros i Hi.
    rewrite !get_upto_length by (simpl; lia). simpl. apply Hkeep. exact Hi.
Qed.

(** X15. [pop] does not clear the slot: on a buffer meeting the data model
    with [length > 0] it returns the value of the last slot in use and only
    decrements the length, so that [get] at the new length still returns the
    popped value. *)
Theorem pop_keeps_slot this :
  wf this -> 0 < length this ->
  exists x,
    get this (length this - 1) = Some x /\
    pop this = Returned (Some x) (with_length this (length this - 1)) /\
    get (with_length this (length this - 1)) (length this - 1) = Some x.
Proof.
  intros Hwf Hpos.
  destruct (pop_push_id this Hwf Hpos) as (x & Hpop & _).
  assert (load (array this) (length this - 1) = Some x) as Hx.
  { revert Hpop. unfold pop.
    destruct (Z.eqb_spec (length this) 0); [lia|]. simpl. congruence. }
  exists x. rewrite !get_upto_length by (simpl; lia). auto.
Qed.

(** X16. On a buffer meeting the data model, [inspect] returns the slots in
    use and nothing else: [length] items, the one at [i] being [get(i)],
    tagged with the name of the array class and the [DynamicArray]
    constructor. *)
Theorem inspect_items name this :
  wf this ->
  proxy_items (inspect name this)
    = take (Z.to_nat (length this)) (array this) /\
  Z.of_nat (List.length (proxy_items (inspect name this))) = length this /\
  (forall i, 0 <= i < length this ->
             proxy_items (inspect name this) !! Z.to_nat i = get this i) /\
  proxy_type (inspect name this) = name /\
  proxy_constructor (inspect name this) = DynamicArray_constructor.
Proof.
  intros [Hl Hc].
  assert (proxy_items (inspect name this)
          = take (Z.to_nat (length this)) (array this)) as Hitems.
  { unfold inspect, slice, relative_index. cbn [proxy_items].
    destruct (Z.ltb_spec 0 0); [lia|].
    destruct (Z.ltb_spec (length this) 0); [lia|].
    rewrite Z.min_l, Z.min_l by lia.
    rewrite Z.sub_0_r. reflexivity. }
  split; [exact Hitems|]. rewrite Hitems. split; [|split; [|auto]].
  - rewrite length_take. lia.
  - intros i Hi. rewrite get_upto_length by lia.
    rewrite lookup_take_lt by lia.
    unfold load. destruct (Z.ltb_spec i 0); [lia | reflexivity].
Qed.

(** X17. [inspect] after pushing [n] values onto an empty buffer gives back
    the list of those values, when the policy, on every capacity from the
    current one up to [n - 1], answers more than it is given and no more
    than the array class allocates. *)
Theorem inspect_push_all name this (values : list V) :
  wf this -> length this = 0 ->
  (forall c, capacity this <= c < Z.of_nat (List.length values) ->
             c < policy this c <= max_length) ->
  exists rs this',
    push_all this values = Returned rs this' /\
    proxy_items (inspect name this') = values.
Proof.
  intros Hwf Hempty Hpol.
  destruct (push_all_from values this Hwf)
    as (this' & Hall & Hwf' & Hl' & _ & Hnew).
  { rewrite Hempty. exact Hpol. }
  rewrite Hempty in Hl', Hnew. rewrite Z.add_0_l in Hl'.
  eexists _, this'. split; [exact Hall|].
  assert (proxy_items (inspect name this')
          = take (Z.to_nat (length this')) (array this')) as ->.
  { destruct Hwf' as [Hl1 Hc1].
    unfold inspect, slice, relative_index. cbn [proxy_items].
    destruct (Z.ltb_spec 0 0); [lia|].
    destruct (Z.ltb_spec (length this') 0); [lia|].
    rewrite Z.min_l, Z.min_l by lia.
    rewrite Z.sub_0_r. reflexivity. }
  rewrite Hl', Nat2Z.id. apply list_eq. intros k.
  destruct (decide (k < List.length values)%nat) as [Hk|Hk].
  - rewrite lookup_take_lt by exact Hk.
    specialize (Hnew (Z.of_nat k) ltac:(lia)).
    rewrite Z.add_0_l, Nat2Z.id in Hnew. rewrite <- Hnew.
    unfold load. destruct (Z.ltb_spec (Z.of_nat k) 0); [lia|].
    rewrite Nat2Z.id. reflexivity.
  - rewrite lookup_take_ge by lia. symmetry. apply lookup_ge_None_2. lia.
Qed.

End MoreDynamicArrayFacts.

(** ** The further properties at work, on an [Int32Array] *)

Lemma DEFAULT_GROWING_POLICY_bounds_witness :
  0 <= 2 /\
  2 <= DEFAULT_GROWING_POLICY 2 <= 2 * 2 /\
  (DEFAULT_GROWING_POLICY 2 = 2 <-> 2 = 0).
Proof.
  assert (0 <= 2) as Hc by lia.
  split; [assumption|]. exact (DEFAULT_GROWING_POLICY_bounds 2 Hc).
Defined.

Lemma new_wf_empty_witness :
  new (inl 2) = inr fresh_2 /\
  length fresh_2 = 0 /\ wf fresh_2 /\
  forall j, 0 <= j < capacity fresh_2 -> load (array fresh_2) j = Some 0.
Proof.
  assert (new (inl 2) = inr fresh_2) as Hnew by reflexivity.
  split; [assumption|]. exact (new_wf_empty (inl 2) fresh_2 Hnew).
Defined.

Lemma get_is_Some_iff_witness :
  wf fresh_2 /\ 0 <= 0 /\
  (is_Some (get fresh_2 0) <-> 0 <= length fresh_2 /\ 0 < capacity fresh_2).
Proof.
  assert (wf fresh_2) as Hwf by concrete_wf.
  assert (0 <= 0) as Hi by lia.
  repeat (split; [assumption|]). exact (get_is_Some_iff fresh_2 0 Hwf Hi).
Defined.

Lemma set_terminates_witness :
  0 <= capacity fresh_1 /\
  (forall c, capacity fresh_1 <= c <= 5 ->
             c < policy fresh_1 c <= max_length) /\
  (Z.to_nat (5 - capacity fresh_1 + 1) <= 5)%nat /\
  exists this',
    set 5 fresh_1 5 7 = Returned this' this' /\
    forall fuel', (5 <= fuel')%nat -> set fuel' fresh_1 5 7 = Returned this' this'.
Proof.
  assert (0 <= capacity fresh_1) as Hc by (simpl; lia).
  assert (forall c, capacity fresh_1 <= c <= 5 ->
                    c < policy fresh_1 c <= max_length) as Hpol
    by default_policy.
  assert (Z.to_nat (5 - capacity fresh_1 + 1) <= 5)%nat as Hfuel
    by (simpl; lia).
  repeat (split; [assumption|]).
  exact (set_terminates 5 fresh_1 5 7 Hc Hpol Hfuel).
Defined.

Lemma set_keeps_other_slots_witness :
  wf full_2 /\ 0 <= 0 /\
  set 0 full_2 0 7
    = Returned (Build 2 2 DEFAULT_GROWING_POLICY [7; 20])
               (Build 2 2 DEFAULT_GROWING_POLICY [7; 20]) /\
  0 <= 1 < length full_2 /\ 1 <> 0 /\
  get (Build 2 2 DEFAULT_GROWING_POLICY [7; 20]) 1 = get full_2 1.
Proof.
  assert (wf full_2) as Hwf by concrete_wf.
  assert (0 <= 0) as Hi by lia.
  assert (set 0 full_2 0 7
          = Returned (Build 2 2 DEFAULT_GROWING_POLICY [7; 20])
                     (Build 2 2 DEFAULT_GROWING_POLICY [7; 20])) as Hset
    by reflexivity.
  assert (0 <= 1 < length full_2) as Hj by (simpl; lia).
  assert (1 <> 0) as Hne by lia.
  repeat (split; [assumption|]).
  exact (set_keeps_other_slots 0 full_2 0 7 _ _ 1 Hwf Hi Hset Hj Hne).
Defined.

Lemma set_from_capacity_fresh_gap_witness :
  wf popped_2 /\ capacity popped_2 <= 3 /\
  set 2 popped_2 3 7 = Returned regrown_5 regrown_5 /\
  length popped_2 <= 1 < capacity regrown_5 /\ 1 <> 3 /\
  load (array popped_2) 1 = Some 20 /\
  load (array regrown_5) 1 = Some 0.
Proof.
  assert (wf popped_2) as Hwf by concrete_wf.
  assert (capacity popped_2 <= 3) as Hge by (simpl; lia).
  assert (set 2 popped_2 3 7 = Returned regrown_5 regrown_5) as Hset
    by reflexivity.
  assert (length popped_2 <= 1 < capacity regrown_5) as Hj by (simpl; lia).
  assert (1 <> 3) as Hne by lia.
  repeat (split; [assumption|]). split; [reflexivity|].
  exact (set_from_capacity_fresh_gap 2 popped_2 3 7 _ _ 1 Hwf Hge Hset Hj Hne).
Defined.

Lemma set_capacity_first_iterate_witness :
  capacity fresh_1 <= 5 /\
  set 4 fresh_1 5 7 = Returned sparse_8 sparse_8 /\
  exists n : nat,
    (0 < n <= 4)%nat /\
    capacity sparse_8 = Nat.iter n DEFAULT_GROWING_POLICY 1 /\
    5 < capacity sparse_8 /\
    forall m : nat, (m < n)%nat -> Nat.iter m DEFAULT_GROWING_POLICY 1 <= 5.
Proof.
  assert (capacity fresh_1 <= 5) as Hge by (simpl; lia).
  assert (set 4 fresh_1 5 7 = Returned sparse_8 sparse_8) as Hset
    by reflexivity.
  repeat (split; [assumption|]).
  exact (set_capacity_first_iterate 4 fresh_1 5 7 _ _ Hge Hset).
Defined.

Lemma push_is_set_at_length_witness :
  wf full_2 /\
  push full_2 30 = Returned 3 full_3 /\
  set 1 full_2 (length full_2) 30 = Returned full_3 full_3 /\
  3 = length full_3.
Proof.
  assert (wf full_2) as Hwf by concrete_wf.
  assert (push full_2 30 = Returned 3 full_3) as Hpush by reflexivity.
  repeat (split; [assumption|]).
  exact (push_is_set_at_length 0 full_2 30 3 full_3 Hwf Hpush).
Defined.

Lemma grow_spec_witness :
  wf full_2 /\
  exists this',
    grow full_2 = Returned this' this' /\
    capacity this' = 3 /\
    length this' = 2 /\
    wf this'.
Proof.
  assert (wf full_2) as Hwf by concrete_wf.
  split; [assumption|].
  pose proof (grow_spec full_2 Hwf) as Hspec. cbv zeta in Hspec.
  destruct (decide (policy full_2 (capacity full_2) <= capacity full_2))
    as [Hstall|_].
  - exfalso. apply Hstall. reflexivity.
  - destruct (decide (max_length < policy full_2 (capacity full_2)))
      as [Hlarge|_].
    + exfalso. discriminate Hlarge.
    + destruct Hspec as (this' & Hgrow & Hc & Hl & Hwf' & _).
      exists this'. auto.
Defined.

Lemma perform_Thrown_spec_witness :
  wf too_large_1_full /\ nonneg_index (Push 8) /\
  perform 0 (Push 8) too_large_1_full
    = Thrown RangeError too_large_1_failed /\
  too_large_1_failed
    = with_capacity too_large_1_full (capacity too_large_1_failed) /\
  length too_large_1_full = capacity too_large_1_full /\
  (RangeError = PolicyViolation_grow /\
   capacity too_large_1_failed <= capacity too_large_1_full \/
   RangeError = RangeError /\ max_length < capacity too_large_1_failed).
Proof.
  assert (wf too_large_1_full) as Hwf by concrete_wf.
  assert (nonneg_index (Push 8)) as Hi by exact I.
  assert (perform 0 (Push 8) too_large_1_full
          = Thrown RangeError too_large_1_failed) as Hrun by reflexivity.
  repeat (split; [assumption|]).
  exact (perform_Thrown_spec 0 (Push 8) too_large_1_full _ _ Hwf Hi Hrun).
Defined.

Lemma perform_Thrown_unchanged_witness :
  wf fresh_0 /\ nonneg_index (Push 7) /\
  (forall k, 0 <= k -> k <= policy fresh_0 k) /\
  perform 0 (Push 7) fresh_0 = Thrown PolicyViolation_grow fresh_0 /\
  (PolicyViolation_grow <> RangeError /\ fresh_0 = fresh_0 \/
   PolicyViolation_grow = RangeError /\
   capacity fresh_0 < capacity fresh_0 /\
   max_length < capacity fresh_0).
Proof.
  assert (wf fresh_0) as Hwf by concrete_wf.
  assert (nonneg_index (Push 7)) as Hi by exact I.
  assert (forall k, 0 <= k -> k <= policy fresh_0 k) as Hpol
    by default_policy.
  assert (perform 0 (Push 7) fresh_0 = Thrown PolicyViolation_grow fresh_0)
    as Hrun by reflexivity.
  repeat (split; [assumption|]).
  exact (perform_Thrown_unchanged 0 (Push 7) fresh_0 _ _ Hwf Hi Hpol Hrun).
Defined.

Lemma run_returning_capacity_mono_witness :
  run_returning 0 [Push 10; Push 20; Push 30] fresh_2 = Returned tt full_3 /\
  capacity fresh_2 <= capacity full_3 /\
  policy full_3 = policy fresh_2.
Proof.
  assert (run_returning 0 [Push 10; Push 20; Push 30] fresh_2
          = Returned tt full_3) as Hrun by reflexivity.
  split; [assumption|].
  exact (run_returning_capacity_mono 0 _ fresh_2 full_3 Hrun).
Defined.

Lemma run_returning_total_witness :
  wf fresh_1 /\
  Forall nonneg_index [Set_ 5 7; Push 8; Pop; Get 0; Grow] /\
  Forall (index_below 6) [Set_ 5 7; Push 8; Pop; Get 0; Grow] /\
  (forall k, capacity fresh_1 <= k -> k < policy fresh_1 k) /\
  exists this',
    run_returning 6 [Set_ 5 7; Push 8; Pop; Get 0; Grow] fresh_1
      = Returned tt this' /\ wf this' \/
    run_returning 6 [Set_ 5 7; Push 8; Pop; Get 0; Grow] fresh_1
      = Thrown RangeError this'.
Proof.
  assert (wf fresh_1) as Hwf by concrete_wf.
  assert (Forall nonneg_index [Set_ 5 7; Push 8; Pop; Get 0; Grow]) as Hcs
    by (repeat constructor; simpl; lia).
  assert (Forall (index_below 6) [Set_ 5 7; Push 8; Pop; Get 0; Grow])
    as Hfuel by (repeat constructor; simpl; lia).
  assert (forall k, capacity fresh_1 <= k -> k < policy fresh_1 k) as Hpol
    by default_policy.
  repeat (split; [assumption|]).
  exact (run_returning_total 6 _ fresh_1 Hwf Hcs Hfuel Hpol).
Defined.

Lemma push_then_pop_restores_witness :
  wf full_2 /\
  (capacity full_2 <= length full_2 ->
   capacity full_2 < policy full_2 (capacity full_2) <= max_length) /\
  exists this1 this2,
    push full_2 30 = Returned 3 this1 /\
    pop this1 = Returned (Some 30) this2 /\
    length this2 = 2 /\
    forall i, 0 <= i < 2 -> get this2 i = get full_2 i.
Proof.
  assert (wf full_2) as Hwf by concrete_wf.
  assert (capacity full_2 <= length full_2 ->
          capacity full_2 < policy full_2 (capacity full_2) <= max_length)
    as Hpol by (intros _; split; [reflexivity | discriminate]).
  repeat (split; [assumption|]).
  exact (push_then_pop_restores full_2 30 Hwf Hpol).
Defined.

Lemma pop_keeps_slot_witness :
  wf full_3 /\ 0 < length full_3 /\
  exists x,
    get full_3 2 = Some x /\
    pop full_3 = Returned (Some x) (with_length full_3 2) /\
    get (with_length full_3 2) 2 = Some x.
Proof.
  assert (wf full_3) as Hwf by concrete_wf.
  assert (0 < length full_3) as Hpos by (simpl; lia).
  repeat (split; [assumption|]).
  exact (pop_keeps_slot full_3 Hwf Hpos).
Defined.

Lemma inspect_items_witness :
  wf sparse_8 /\
  proxy_items (inspect String.EmptyString sparse_8) = [0; 0; 0; 0; 0; 7] /\
  Z.of_nat (List.length (proxy_items (inspect String.EmptyString sparse_8)))
    = 6 /\
  (forall i, 0 <= i < 6 ->
             proxy_items (inspect String.EmptyString sparse_8) !! Z.to_nat i
               = get sparse_8 i) /\
  proxy_type (inspect String.EmptyString sparse_8) = String.EmptyString /\
  proxy_constructor (inspect String.EmptyString sparse_8)
    = DynamicArray_constructor.
Proof.
  assert (wf sparse_8) as Hwf by concrete_wf.
  split; [assumption|].
  exact (inspect_items String.EmptyString sparse_8 Hwf).
Defined.

Lemma inspect_push_all_witness :
  wf fresh_2 /\ length fresh_2 = 0 /\
  (forall c, capacity fresh_2 <= c < Z.of_nat (List.length [10; 20; 30]) ->
             c < policy fresh_2 c <= max_length) /\
  exists rs this',
    push_all fresh_2 [10; 20; 30] = Returned rs this' /\
    proxy_items (inspect String.EmptyString this') = [10; 20; 30].
Proof.
  assert (wf fresh_2) as Hwf by concrete_wf.
  assert (length fresh_2 = 0) as Hempty by reflexivity.
  assert (forall c,
            capacity fresh_2 <= c < Z.of_nat (List.length [10; 20; 30]) ->
            c < policy fresh_2 c <= max_length) as Hpol by default_policy.
  repeat (split; [assumption|]).
  exact (inspect_push_all String.EmptyString fresh_2 [10; 20; 30]
           Hwf Hempty Hpol).
Defined.

Lemma wf_run_returning_witness :
  wf fresh_2 /\
  Forall nonneg_index [Push 10; Push 20; Push 30] /\
  run_returning 0 [Push 10; Push 20; Push 30] fresh_2 = Returned tt full_3 /\
  wf full_3.
Proof.
  assert (wf fresh_2) as Hwf by concrete_wf.
  assert (Forall nonneg_index [Push 10; Push 20; Push 30]) as Hcs
    by (repeat constructor).
  assert (run_returning 0 [Push 10; Push 20; Push 30] fresh_2
          = Returned tt full_3) as Hrun by reflexivity.
  repeat (split; [assumption|]).
  exact (wf_run_returning 0 _ fresh_2 full_3 Hwf Hcs Hrun).
Defined.

Lemma wf_run_witness :
  wf too_large_1 /\
  Forall nonneg_index [Push 7; Push 8; Get 0] /\
  (forall k, 0 <= k -> k <= policy too_large_1 k) /\
  run 0 [Push 7; Push 8; Get 0] too_large_1 = Some too_large_1_failed /\
  (wf too_large_1_failed \/ max_length < capacity too_large_1_failed).
Proof.
  assert (wf too_large_1) as Hwf by concrete_wf.
  assert (Forall nonneg_index [Push 7; Push 8; Get 0]) as Hcs
    by (repeat constructor; simpl; lia).
  assert (forall k, 0 <= k -> k <= policy too_large_1 k) as Hpol
    by (simpl; unfold too_large; lia).
  assert (run 0 [Push 7; Push 8; Get 0] too_large_1 = Some too_large_1_failed)
    as Hrun by reflexivity.
  repeat (split; [assumption|]).
  exact (wf_run 0 _ too_large_1 too_large_1_failed Hwf Hcs Hpol Hrun).
Defined.
